(** * The pixel frame store and scan state machine of [cores/blinkcore/pixel.cpp]

    A shallow embedding of the double-buffered raw pixel store, the
    five-phase timer-overflow handler [pixel_isr] and the foreground
    entry points [pixel_init], [pixel_bufferedSetPixelRaw],
    [pixel_bufferedSetPixel] and [pixel_displayBufferedPixels].

    Conventions.
    - A [uint8_t] is an [N]; the increments of the handler ([phase++],
      [currentPixelIndex++]) wrap modulo 256 ([uint8]).
    - The file-scope variables of pixel.cpp are the fields of [state].
      The two pointers [displayedRawPixelSet] and [bufferedRawPixelSet]
      are indices into [rawpixelsetbuffer], so that both name slots of
      one shared store.
    - Accesses to volatile objects (the I/O registers written through
      SBI, CBI and plain assignment, and [pendingRawPixelBufferSwap])
      are recorded, newest first, in the [io] field.
    - Code runs in a state monad with failure; an access outside an
      array (undefined behaviour in C) is a failure.
    - The busy wait of [pixel_displayBufferedPixels] takes fuel: the
      number of timer overflows it may wait for.  One frame, 30
      overflows, is always enough. *)

From Stdlib Require Import NArith Lia List Sorted.
From stdpp Require Import base option list.

Local Open Scope N_scope.

Module Pixel.

(** ** Data *)

(** Modelled from the spec: hardware.h, which defines PIXEL_COUNT, is
    not among the sources; the spec fixes it at 6, the number of cases
    of [activateAnode]. *)
Definition PIXEL_COUNT : N := 6.

Definition RAW_PIXEL_SET_BUFFER_COUNT : N := 2.

Definition uint8 (n : N) : N := n mod 256.

Record rawpixel_t : Type := {
  rawValueR : N;
  rawValueG : N;
  rawValueB : N
}.

Record rawpixelset_t : Type := {
  rawpixels : list rawpixel_t
}.

(** Modelled from the spec: pixel.h, which declares pixelColor_t, is
    not among the sources; the spec gives three components, each in
    0..31. *)
Record pixelColor_t : Type := {
  r : N;
  g : N;
  b : N
}.

(** ** Volatile accesses *)

Inductive pinreg : Type := DDR | PORT.

Inductive line : Type :=
  | PIXEL0 | PIXEL1 | PIXEL2 | PIXEL3 | PIXEL4 | PIXEL5
  | LED_R | LED_G | LED_B | BLUE_SINK.

Inductive ioreg : Type :=
  | OCR0A | OCR0B | OCR2B | TCCR2A | TIMSK0 | TIMSK2.

Inductive event : Type :=
  | SBI (reg : pinreg) (l : line)
  | CBI (reg : pinreg) (l : line)
  | OUT (reg : ioreg) (v : N)
  | LD_pendingRawPixelBufferSwap (v : N)
  | ST_pendingRawPixelBufferSwap (v : N).

(** Bit numbers of the ATmega timer registers, from avr-libc. *)
Definition _BV (bit : N) : N := N.shiftl 1 bit.
Definition WGM00 : N := 0.
Definition WGM01 : N := 1.
Definition COM2B1 : N := 5.
Definition TOIE0 : N := 0.
Definition OCIE2A : N := 1.

(** ** Program state *)

Record state : Type := {
  rawpixelsetbuffer : list rawpixelset_t;
  displayedRawPixelSet : nat;
  bufferedRawPixelSet : nat;
  currentPixelIndex : N;
  phase : N;
  pendingRawPixelBufferSwap : N;
  io : list event
}.

Definition set_rawpixelsetbuffer (v : list rawpixelset_t) (s : state) : state :=
  {| rawpixelsetbuffer := v;
     displayedRawPixelSet := displayedRawPixelSet s;
     bufferedRawPixelSet := bufferedRawPixelSet s;
     currentPixelIndex := currentPixelIndex s;
     phase := phase s;
     pendingRawPixelBufferSwap := pendingRawPixelBufferSwap s;
     io := io s |}.

Definition set_displayedRawPixelSet (v : nat) (s : state) : state :=
  {| rawpixelsetbuffer := rawpixelsetbuffer s;
     displayedRawPixelSet := v;
     bufferedRawPixelSet := bufferedRawPixelSet s;
     currentPixelIndex := currentPixelIndex s;
     phase := phase s;
     pendingRawPixelBufferSwap := pendingRawPixelBufferSwap s;
     io := io s |}.

Definition set_bufferedRawPixelSet (v : nat) (s : state) : state :=
  {| rawpixelsetbuffer := rawpixelsetbuffer s;
     displayedRawPixelSet := displayedRawPixelSet s;
     bufferedRawPixelSet := v;
     currentPixelIndex := currentPixelIndex s;
     phase := phase s;
     pendingRawPixelBufferSwap := pendingRawPixelBufferSwap s;
     io := io s |}.

Definition set_currentPixelIndex (v : N) (s : state) : state :=
  {| rawpixelsetbuffer := rawpixelsetbuffer s;
     displayedRawPixelSet := displayedRawPixelSet s;
     bufferedRawPixelSet := bufferedRawPixelSet s;
     currentPixelIndex := v;
     phase := phase s;
     pendingRawPixelBufferSwap := pendingRawPixelBufferSwap s;
     io := io s |}.

Definition set_phase (v : N) (s : state) : state :=
  {| rawpixelsetbuffer := rawpixelsetbuffer s;
     displayedRawPixelSet := displayedRawPixelSet s;
     bufferedRawPixelSet := bufferedRawPixelSet s;
     currentPixelIndex := currentPixelIndex s;
     phase := v;
     pendingRawPixelBufferSwap := pendingRawPixelBufferSwap s;
     io := io s |}.

Definition set_pendingRawPixelBufferSwap (v : N) (s : state) : state :=
  {| rawpixelsetbuffer := rawpixelsetbuffer s;
     displayedRawPixelSet := displayedRawPixelSet s;
     bufferedRawPixelSet := bufferedRawPixelSet s;
     currentPixelIndex := currentPixelIndex s;
     phase := phase s;
     pendingRawPixelBufferSwap := v;
     io := io s |}.

Definition emit (e : event) (s : state) : state :=
  {| rawpixelsetbuffer := rawpixelsetbuffer s;
     displayedRawPixelSet := displayedRawPixelSet s;
     bufferedRawPixelSet := bufferedRawPixelSet s;
     currentPixelIndex := currentPixelIndex s;
     phase := phase s;
     pendingRawPixelBufferSwap := pendingRawPixelBufferSwap s;
     io := e :: io s |}.

(** The state at reset: objects with static storage are zero unless
    they have an initialiser. *)
Definition zero_pixel : rawpixel_t :=
  {| rawValueR := 0; rawValueG := 0; rawValueB := 0 |}.

Definition boot_state : state :=
  {| rawpixelsetbuffer :=
       replicate (N.to_nat RAW_PIXEL_SET_BUFFER_COUNT)
         {| rawpixels := replicate (N.to_nat PIXEL_COUNT) zero_pixel |};
     displayedRawPixelSet := 0%nat;
     bufferedRawPixelSet := 1%nat;
     currentPixelIndex := 0;
     phase := 0;
     pendingRawPixelBufferSwap := 0;
     io := [] |}.

(** ** The monad of the embedded code *)

Definition M (A : Type) : Type := state -> option (A * state).

Definition ret {A} (a : A) : M A := fun s => Some (a, s).

Definition bind {A B} (m : M A) (k : A -> M B) : M B :=
  fun s => match m s with
           | Some (a, s') => k a s'
           | None => None
           end.

Definition fail {A} : M A := fun _ => None.

Definition gets {A} (f : state -> A) : M A := fun s => Some (f s, s).

Definition modify (f : state -> state) : M unit := fun s => Some (tt, f s).

Declare Scope pixel_scope.
Delimit Scope pixel_scope with pixel.
Notation "'let*' x ':=' m 'in' k" := (bind m (fun x => k))
  (at level 10, x name, m at level 100, k at level 200) : pixel_scope.
Notation "m ';;' k" := (bind m (fun _ => k))
  (at level 100, k at level 200, right associativity) : pixel_scope.
Local Open Scope pixel_scope.

(** The state reached by a run, when it returns. *)
Definition exec {A} (m : M A) (s : state) : option state :=
  match m s with
  | Some (_, s') => Some s'
  | None => None
  end.

(** ** Memory accesses *)

(** [set->rawpixels[i]], read through a pointer to a pixel set. *)
Definition pixel_at (bufs : list rawpixelset_t) (set : nat) (i : N)
  : option rawpixel_t :=
  match bufs !! set with
  | Some ps => rawpixels ps !! N.to_nat i
  | None => None
  end.

Definition load_pixel (set : nat) (i : N) : M rawpixel_t :=
  fun s => match pixel_at (rawpixelsetbuffer s) set i with
           | Some px => Some (px, s)
           | None => None
           end.

(** Assignment to one field of [set->rawpixels[i]]. *)
Definition store_field (upd : N -> rawpixel_t -> rawpixel_t)
    (set : nat) (i : N) (v : N) : M unit :=
  fun s =>
    match rawpixelsetbuffer s !! set with
    | Some ps =>
        match rawpixels ps !! N.to_nat i with
        | Some px =>
            Some (tt,
                  set_rawpixelsetbuffer
                    (<[set := {| rawpixels :=
                                   <[N.to_nat i := upd v px]> (rawpixels ps) |}]>
                       (rawpixelsetbuffer s)) s)
        | None => None
        end
    | None => None
    end.

Definition upd_rawValueR (v : N) (px : rawpixel_t) : rawpixel_t :=
  {| rawValueR := v; rawValueG := rawValueG px; rawValueB := rawValueB px |}.
Definition upd_rawValueG (v : N) (px : rawpixel_t) : rawpixel_t :=
  {| rawValueR := rawValueR px; rawValueG := v; rawValueB := rawValueB px |}.
Definition upd_rawValueB (v : N) (px : rawpixel_t) : rawpixel_t :=
  {| rawValueR := rawValueR px; rawValueG := rawValueG px; rawValueB := v |}.

(** Volatile accesses. *)
Definition sbi (reg : pinreg) (l : line) : M unit := modify (emit (SBI reg l)).
Definition cbi (reg : pinreg) (l : line) : M unit := modify (emit (CBI reg l)).
Definition out (reg : ioreg) (v : N) : M unit := modify (emit (OUT reg v)).

Definition load_pendingRawPixelBufferSwap : M N :=
  fun s => Some (pendingRawPixelBufferSwap s,
                 emit (LD_pendingRawPixelBufferSwap (pendingRawPixelBufferSwap s)) s).

Definition store_pendingRawPixelBufferSwap (v : N) : M unit :=
  modify (fun s => emit (ST_pendingRawPixelBufferSwap v)
                     (set_pendingRawPixelBufferSwap v s)).

(** [for (uint8_t i = from; i < from + count; i++) body(i)], for bounds
    below 256. *)
Fixpoint for_loop (count : nat) (from : N) (body : N -> M unit) : M unit :=
  match count with
  | O => ret tt
  | S count' => body from;; for_loop count' (from + 1) body
  end.

(** ** Pin and timer set-up *)

Definition setupPixelPins : M unit :=
  sbi DDR PIXEL0;;
  sbi DDR PIXEL1;;
  sbi DDR PIXEL2;;
  sbi DDR PIXEL3;;
  sbi DDR PIXEL4;;
  sbi DDR PIXEL5;;
  sbi PORT LED_R;;
  sbi PORT LED_G;;
  sbi DDR LED_R;;
  sbi DDR LED_G.

Definition setupTimers : M unit :=
  out TIMSK0 (_BV TOIE0);;
  out TIMSK2 (_BV OCIE2A).

Definition pixel_init : M unit :=
  for_loop (N.to_nat RAW_PIXEL_SET_BUFFER_COUNT) 0 (fun i =>
    let rawpixelset := N.to_nat i in
    for_loop (N.to_nat PIXEL_COUNT) 0 (fun j =>
      store_field upd_rawValueR rawpixelset j 255;;
      store_field upd_rawValueG rawpixelset j 255;;
      store_field upd_rawValueB rawpixelset j 255));;
  setupPixelPins;;
  setupTimers.

Definition activateAnode (l : N) : M unit :=
  match l with
  | 0 => sbi PORT PIXEL0
  | 1 => sbi PORT PIXEL1
  | 2 => sbi PORT PIXEL2
  | 3 => sbi PORT PIXEL3
  | 4 => sbi PORT PIXEL4
  | 5 => sbi PORT PIXEL5
  | _ => ret tt
  end.

Definition deactivateAnodes : M unit :=
  cbi PORT PIXEL0;;
  cbi PORT PIXEL1;;
  cbi PORT PIXEL2;;
  cbi PORT PIXEL3;;
  cbi PORT PIXEL4;;
  cbi PORT PIXEL5.

(** ** The timer-overflow handler *)

(** [currentPixel] is the pixel [displayedRawPixelSet->rawpixels
    [currentPixelIndex]] as both stand on entry; a field of it is read
    where the source dereferences the pointer. *)
Definition pixel_isr : M unit :=
  let* displayed := gets displayedRawPixelSet in
  let* index := gets currentPixelIndex in
  let currentPixel := load_pixel displayed index in
  let* ph := gets phase in
  match ph with
  | 0 =>
      deactivateAnodes;;
      let* px := currentPixel in
      (if negb (rawValueB px =? 255) then
         out TCCR2A (N.lor (_BV COM2B1) (N.lor (_BV WGM01) (_BV WGM00)));;
         sbi DDR LED_B;;
         sbi DDR BLUE_SINK
       else ret tt);;
      modify (set_phase (uint8 (ph + 1)))
  | 1 =>
      cbi DDR BLUE_SINK;;
      activateAnode index;;
      let* px := currentPixel in
      out OCR2B (rawValueB px);;
      modify (set_phase (uint8 (ph + 1)))
  | 2 =>
      out OCR2B 255;;
      let* px := currentPixel in
      out OCR0A (rawValueR px);;
      modify (set_phase (uint8 (ph + 1)))
  | 3 =>
      cbi DDR LED_B;;
      out TCCR2A (N.lor (_BV WGM01) (_BV WGM00));;
      out OCR0A 255;;
      let* px := currentPixel in
      out OCR0B (rawValueG px);;
      modify (set_phase (uint8 (ph + 1)))
  | 4 =>
      out OCR0B 255;;
      modify (set_phase 0);;
      modify (set_currentPixelIndex (uint8 (index + 1)));;
      let* index' := gets currentPixelIndex in
      if index' =? PIXEL_COUNT then
        modify (set_currentPixelIndex 0);;
        let* pending := load_pendingRawPixelBufferSwap in
        if negb (pending =? 0) then
          let* temp := gets displayedRawPixelSet in
          let* buffered := gets bufferedRawPixelSet in
          modify (set_displayedRawPixelSet buffered);;
          modify (set_bufferedRawPixelSet temp);;
          store_pendingRawPixelBufferSwap 0
        else ret tt
      else ret tt
  | _ => ret tt
  end.

(** [n] consecutive timer overflows. *)
Fixpoint pixel_isr_n (n : nat) : M unit :=
  match n with
  | O => ret tt
  | S n' => pixel_isr;; pixel_isr_n n'
  end.

(** ** Foreground entry points *)

Definition pixel_bufferedSetPixelRaw (pixel r_pwm g_pwm b_pwm : N) : M unit :=
  let* rawpixel := gets bufferedRawPixelSet in
  store_field upd_rawValueR rawpixel pixel r_pwm;;
  store_field upd_rawValueG rawpixel pixel g_pwm;;
  store_field upd_rawValueB rawpixel pixel b_pwm.

Definition gamma8R : list N :=
  [255;254;253;251;250;248;245;242;238;234;230;224;218;211;204;195;
   186;176;165;153;140;126;111;95;78;59;40;19;13;9;3;1].

Definition gamma8G : list N :=
  [255;254;253;251;250;248;245;242;238;234;230;224;218;211;204;195;
   186;176;165;153;140;126;111;95;78;59;40;19;13;9;3;1].

Definition gamma8B : list N :=
  [255;254;253;251;250;248;245;242;238;234;230;224;218;211;204;195;
   186;176;165;153;140;126;111;95;78;59;40;19;13;9;3;1].

(** [pgm_read_byte(&table[i])]. *)
Definition pgm_read_byte (table : list N) (i : N) : M N :=
  fun s => match table !! N.to_nat i with
           | Some v => Some (v, s)
           | None => None
           end.

Definition pixel_bufferedSetPixel (pixel : N) (newColor : pixelColor_t) : M unit :=
  let* rawpixel := gets bufferedRawPixelSet in
  let* vr := pgm_read_byte gamma8R (r newColor) in
  store_field upd_rawValueR rawpixel pixel vr;;
  let* vg := pgm_read_byte gamma8G (g newColor) in
  store_field upd_rawValueG rawpixel pixel vg;;
  let* vb := pgm_read_byte gamma8B (b newColor) in
  store_field upd_rawValueB rawpixel pixel vb.

(** [while (pendingRawPixelBufferSwap);]: the flag is polled, and as
    long as it is set the next timer overflow runs [pixel_isr].  The
    fuel bounds the number of overflows waited for. *)
Fixpoint wait_pendingRawPixelBufferSwap (fuel : nat) : M unit :=
  let* pending := load_pendingRawPixelBufferSwap in
  if negb (pending =? 0) then
    match fuel with
    | O => fail
    | S fuel' => pixel_isr;; wait_pendingRawPixelBufferSwap fuel'
    end
  else ret tt.

(** [memcpy(dst, src, sizeof(rawpixelset_t))] between two slots of the
    store. *)
Definition memcpy_rawpixelset (dst src : nat) : M unit :=
  fun s =>
    match rawpixelsetbuffer s !! src with
    | Some ps =>
        if decide (dst < length (rawpixelsetbuffer s))%nat then
          Some (tt, set_rawpixelsetbuffer (<[dst := ps]> (rawpixelsetbuffer s)) s)
        else None
    | None => None
    end.

Definition pixel_displayBufferedPixels (fuel : nat) : M unit :=
  store_pendingRawPixelBufferSwap 1;;
  wait_pendingRawPixelBufferSwap fuel;;
  let* buffered := gets bufferedRawPixelSet in
  let* displayed := gets displayedRawPixelSet in
  memcpy_rawpixelset buffered displayed.

(** ** Views of the frame store *)

Definition displayed_set (s : state) : option rawpixelset_t :=
  rawpixelsetbuffer s !! displayedRawPixelSet s.

Definition buffered_set (s : state) : option rawpixelset_t :=
  rawpixelsetbuffer s !! bufferedRawPixelSet s.

Definition displayed_pixel (s : state) (i : N) : option rawpixel_t :=
  pixel_at (rawpixelsetbuffer s) (displayedRawPixelSet s) i.

Definition buffered_pixel (s : state) (i : N) : option rawpixel_t :=
  pixel_at (rawpixelsetbuffer s) (bufferedRawPixelSet s) i.

Definition off_pixel : rawpixel_t :=
  {| rawValueR := 255; rawValueG := 255; rawValueB := 255 |}.

End Pixel.
Import Pixel.
Local Open Scope pixel_scope.

(** * Invariants of the reachable states *)

(** The shape the C types give the store: two sets of six pixels. *)
Definition store_ok (bufs : list rawpixelset_t) : Prop :=
  length bufs = N.to_nat RAW_PIXEL_SET_BUFFER_COUNT /\
  Forall (fun ps => length (rawpixels ps) = N.to_nat PIXEL_COUNT) bufs.

(** The two pointers name the two different sets of the store. *)
Definition pointers_ok (s : state) : Prop :=
  (displayedRawPixelSet s < 2)%nat /\
  (bufferedRawPixelSet s < 2)%nat /\
  displayedRawPixelSet s <> bufferedRawPixelSet s.

Definition cursor_ok (s : state) : Prop :=
  currentPixelIndex s < PIXEL_COUNT /\ phase s < 5.

Record wf (s : state) : Prop := {
  wf_store : store_ok (rawpixelsetbuffer s);
  wf_pointers : pointers_ok s;
  wf_cursor : cursor_ok s
}.

(** Timer overflows left before the one that wraps the pixel index. *)
Definition ticks_before_wrap (s : state) : nat :=
  N.to_nat (5 * (PIXEL_COUNT - 1 - currentPixelIndex s) + (4 - phase s)).

(** The handler is about to wrap the pixel index. *)
Definition at_wrap (s : state) : Prop :=
  phase s = 4 /\ currentPixelIndex s = PIXEL_COUNT - 1.

(** Reads of the swap flag among recorded accesses. *)
Definition is_flag_read (e : event) : bool :=
  match e with
  | LD_pendingRawPixelBufferSwap _ => true
  | _ => false
  end.

Fixpoint flag_reads (evs : list event) : nat :=
  match evs with
  | [] => 0%nat
  | e :: evs' => ((if is_flag_read e then 1 else 0) + flag_reads evs')%nat
  end.

(** The cursor after one timer overflow, for a cursor in range. *)
Definition next_cursor (c : N * N) : N * N :=
  let '(index, ph) := c in
  if ph =? 4 then (if index =? PIXEL_COUNT - 1 then 0 else index + 1, 0)
  else (index, ph + 1).

Definition cursor (s : state) : N * N := (currentPixelIndex s, phase s).

Definition color_ok (c : pixelColor_t) : Prop :=
  r c <= 31 /\ g c <= 31 /\ b c <= 31.

Definition all_off (bufs : list rawpixelset_t) : Prop :=
  forall set i, (set < 2)%nat -> i < PIXEL_COUNT ->
    pixel_at bufs set i = Some off_pixel.

(** The addressed slot of the buffered set is the only thing on which
    [s'] may differ from [s]. *)
Definition only_buffered_slot_written (pixel : N) (s s' : state) : Prop :=
  displayedRawPixelSet s' = displayedRawPixelSet s /\
  bufferedRawPixelSet s' = bufferedRawPixelSet s /\
  (forall i, displayed_pixel s' i = displayed_pixel s i) /\
  (forall i, i <> pixel -> buffered_pixel s' i = buffered_pixel s i) /\
  currentPixelIndex s' = currentPixelIndex s /\
  phase s' = phase s /\
  pendingRawPixelBufferSwap s' = pendingRawPixelBufferSwap s /\
  io s' = io s.

(** ** Reachable states *)

(** One call of an entry point within its contract (pixel index and
    colour components in range, fuel for a whole frame), or one timer
    overflow. *)
Inductive step (s s' : state) : Prop :=
  | step_init :
      exec pixel_init s = Some s' -> step s s'
  | step_overflow :
      exec pixel_isr s = Some s' -> step s s'
  | step_set_raw pixel vr vg vb :
      pixel < PIXEL_COUNT ->
      exec (pixel_bufferedSetPixelRaw pixel vr vg vb) s = Some s' -> step s s'
  | step_set pixel c :
      pixel < PIXEL_COUNT -> color_ok c ->
      exec (pixel_bufferedSetPixel pixel c) s = Some s' -> step s s'
  | step_display fuel :
      (30 <= fuel)%nat ->
      exec (pixel_displayBufferedPixels fuel) s = Some s' -> step s s'.

Inductive reachable : state -> Prop :=
  | reachable_boot : reachable boot_state
  | reachable_step s s' : reachable s -> step s s' -> reachable s'.

(** ** The hardware as the recorded accesses leave it *)

Definition pinreg_id (reg : pinreg) : N :=
  match reg with DDR => 0 | PORT => 1 end.

Definition line_id (l : line) : N :=
  match l with
  | PIXEL0 => 0 | PIXEL1 => 1 | PIXEL2 => 2 | PIXEL3 => 3 | PIXEL4 => 4
  | PIXEL5 => 5 | LED_R => 6 | LED_G => 7 | LED_B => 8 | BLUE_SINK => 9
  end.

Definition ioreg_id (reg : ioreg) : N :=
  match reg with
  | OCR0A => 0 | OCR0B => 1 | OCR2B => 2 | TCCR2A => 3 | TIMSK0 => 4
  | TIMSK2 => 5
  end.

Definition same_pin (reg : pinreg) (l : line) (reg' : pinreg) (l' : line) : bool :=
  (pinreg_id reg =? pinreg_id reg') && (line_id l =? line_id l').

(** Bit [l] of the pin register [reg]: set by the latest SBI on it,
    cleared by the latest CBI, and clear if never written. *)
Fixpoint pin_bit (reg : pinreg) (l : line) (evs : list event) : bool :=
  match evs with
  | [] => false
  | SBI reg' l' :: evs' =>
      if same_pin reg l reg' l' then true else pin_bit reg l evs'
  | CBI reg' l' :: evs' =>
      if same_pin reg l reg' l' then false else pin_bit reg l evs'
  | _ :: evs' => pin_bit reg l evs'
  end.

(** The value last assigned to an I/O register, if any. *)
Fixpoint last_out (reg : ioreg) (evs : list event) : option N :=
  match evs with
  | [] => None
  | OUT reg' v :: evs' =>
      if ioreg_id reg =? ioreg_id reg' then Some v else last_out reg evs'
  | _ :: evs' => last_out reg evs'
  end.

(** The anode line [activateAnode] drives for a pixel index. *)
Definition anode (i : N) : option line :=
  match i with
  | 0 => Some PIXEL0
  | 1 => Some PIXEL1
  | 2 => Some PIXEL2
  | 3 => Some PIXEL3
  | 4 => Some PIXEL4
  | 5 => Some PIXEL5
  | _ => None
  end.

Definition is_anode (l : line) : bool := line_id l <? 6.

(** The pixel whose anode the handler has left driven: none between
    phase 0 and phase 1, the current one from phase 1 on, and still the
    previous one once phase 4 has stepped the index. *)
Definition lit_pixel (s : state) : option N :=
  match phase s with
  | 0 => Some ((currentPixelIndex s + (PIXEL_COUNT - 1)) mod PIXEL_COUNT)
  | 1 => None
  | _ => Some (currentPixelIndex s)
  end.

(** A driven anode is that of [lit_pixel]. *)
Definition anodes_ok (s : state) : Prop :=
  forall l, is_anode l = true -> pin_bit PORT l (io s) = true ->
    exists i, lit_pixel s = Some i /\ anode i = Some l.

(** The pump sink is enabled only between phase 0 and phase 1. *)
Definition blue_sink_ok (s : state) : Prop :=
  pin_bit DDR BLUE_SINK (io s) = true -> phase s = 1.

(** The blue drive pin is an output only from phase 0 to phase 3 of a
    displayed pixel whose blue value is not off. *)
Definition blue_pin_ok (s : state) : Prop :=
  pin_bit DDR LED_B (io s) = true ->
  (phase s = 1 \/ phase s = 2 \/ phase s = 3) /\
  exists px, displayed_pixel s (currentPixelIndex s) = Some px /\
             rawValueB px <> 255.

(** The compare register [reg] holds channel [chan] of the current
    displayed pixel when the next overflow runs phase [shown], and the
    off value otherwise. *)
Definition compare_ok (reg : ioreg) (shown : N) (chan : rawpixel_t -> N)
    (s : state) : Prop :=
  exists px,
    displayed_pixel s (currentPixelIndex s) = Some px /\
    last_out reg (io s) = Some (if phase s =? shown then chan px else 255).

(** Overflows left before one that runs phase [e]. *)
Definition ticks_to_phase (e : N) (s : state) : nat :=
  N.to_nat (if phase s <=? e then e - phase s else e + 5 - phase s).

(** [s1] is [s] with other contents in the store, the displayed set
    apart. *)
Definition same_but_hidden_store (s s1 : state) : Prop :=
  displayedRawPixelSet s1 = displayedRawPixelSet s /\
  bufferedRawPixelSet s1 = bufferedRawPixelSet s /\
  currentPixelIndex s1 = currentPixelIndex s /\
  phase s1 = phase s /\
  pendingRawPixelBufferSwap s1 = pendingRawPixelBufferSwap s /\
  io s1 = io s /\
  forall i, displayed_pixel s1 i = displayed_pixel s i.

(** ** Sample states *)

(** A request standing in the middle of a scan: pixel 2, phase 3. *)
Definition mid_scan_request : state :=
  {| rawpixelsetbuffer :=
       [ {| rawpixels := replicate 6 off_pixel |};
         {| rawpixels := replicate 6 zero_pixel |} ];
     displayedRawPixelSet := 0%nat;
     bufferedRawPixelSet := 1%nat;
     currentPixelIndex := 2;
     phase := 3;
     pendingRawPixelBufferSwap := 1;
     io := [] |}.

(** The state [pixel_init] leaves when run at reset. *)
Definition initialized_state : state :=
  Eval cbv in
    match exec pixel_init boot_state with
    | Some s => s
    | None => boot_state
    end.

(** * Basic facts *)

(** Unfolds the monad and the volatile accesses. *)
Ltac unfold_m :=
  unfold exec, bind, ret, fail, gets, modify, sbi, cbi, out, load_pixel,
    load_pendingRawPixelBufferSwap, store_pendingRawPixelBufferSwap in *.

(** Projections of a state that only gained I/O events. *)
Ltac norm_emit :=
  unfold cursor in *;
  cbn [emit rawpixelsetbuffer displayedRawPixelSet bufferedRawPixelSet
       currentPixelIndex phase pendingRawPixelBufferSwap] in *.

Lemma boot_state_wf : wf boot_state.
Proof.
  split.
  - split; [reflexivity|]. repeat constructor.
  - repeat split; simpl; lia.
  - split; reflexivity.
Qed.

Lemma pixel_at_Some bufs set i :
  store_ok bufs -> (set < 2)%nat -> i < PIXEL_COUNT ->
  exists ps px, bufs !! set = Some ps /\ rawpixels ps !! N.to_nat i = Some px /\
                length (rawpixels ps) = 6%nat.
Proof.
  intros [Hlen Hall] Hset Hi.
  destruct (lookup_lt_is_Some_2 bufs set) as [ps Hps].
  { rewrite Hlen. change (N.to_nat RAW_PIXEL_SET_BUFFER_COUNT) with 2%nat. lia. }
  assert (Hps6 : length (rawpixels ps) = 6%nat).
  { rewrite Forall_lookup in Hall. apply (Hall _ _ Hps). }
  destruct (lookup_lt_is_Some_2 (rawpixels ps) (N.to_nat i)) as [px Hpx].
  { rewrite Hps6. unfold PIXEL_COUNT in Hi. lia. }
  eauto.
Qed.

Lemma store_ok_insert bufs set ps :
  store_ok bufs -> length (rawpixels ps) = 6%nat ->
  store_ok (<[set := ps]> bufs).
Proof.
  intros [Hlen Hall] Hps. split.
  - by rewrite length_insert.
  - apply Forall_insert; [done|]. exact Hps.
Qed.

(** One field assignment: it succeeds in range, rewrites that field of
    that slot and leaves every other slot of the store alone. *)
Lemma store_field_spec upd set i v s :
  store_ok (rawpixelsetbuffer s) -> (set < 2)%nat -> i < PIXEL_COUNT ->
  exists px s',
    pixel_at (rawpixelsetbuffer s) set i = Some px /\
    store_field upd set i v s = Some (tt, s') /\
    pixel_at (rawpixelsetbuffer s') set i = Some (upd v px) /\
    (forall set' i', (set' <> set \/ i' <> i) ->
       pixel_at (rawpixelsetbuffer s') set' i' =
       pixel_at (rawpixelsetbuffer s) set' i') /\
    store_ok (rawpixelsetbuffer s') /\
    displayedRawPixelSet s' = displayedRawPixelSet s /\
    bufferedRawPixelSet s' = bufferedRawPixelSet s /\
    currentPixelIndex s' = currentPixelIndex s /\
    phase s' = phase s /\
    pendingRawPixelBufferSwap s' = pendingRawPixelBufferSwap s /\
    io s' = io s.
Proof.
  intros Hok Hset Hi.
  destruct (pixel_at_Some _ set i Hok Hset Hi) as (ps & px & Hps & Hpx & Hlen).
  exists px. unfold store_field, pixel_at. rewrite Hps, Hpx.
  eexists. split; [reflexivity|]. split; [reflexivity|]. simpl.
  assert (Hset' : (set < length (rawpixelsetbuffer s))%nat).
  { apply lookup_lt_is_Some. eauto. }
  assert (Hi' : (N.to_nat i < length (rawpixels ps))%nat).
  { apply lookup_lt_is_Some. eauto. }
  split.
  { rewrite list_lookup_insert_eq by done. simpl.
    by rewrite list_lookup_insert_eq. }
  split.
  { intros set' i' Hne.
    destruct (decide (set' = set)) as [->|Hs].
    - rewrite list_lookup_insert_eq by done. simpl. rewrite Hps.
      destruct Hne as [Hne|Hne]; [done|].
      rewrite list_lookup_insert_ne; [done|]. lia.
    - by rewrite list_lookup_insert_ne. }
  split.
  { apply store_ok_insert; [done|]. simpl. by rewrite length_insert. }
  repeat split.
Qed.

(** * One timer overflow *)

Lemma phase_cases s :
  cursor_ok s ->
  phase s = 0 \/ phase s = 1 \/ phase s = 2 \/ phase s = 3 \/ phase s = 4.
Proof. intros [_ H]. lia. Qed.

Lemma index_cases s :
  cursor_ok s ->
  currentPixelIndex s = 0 \/ currentPixelIndex s = 1 \/
  currentPixelIndex s = 2 \/ currentPixelIndex s = 3 \/
  currentPixelIndex s = 4 \/ currentPixelIndex s = 5.
Proof. intros [H _]. unfold PIXEL_COUNT in H. lia. Qed.

(** Away from the wrap the handler only advances the phase (and, in
    phase 4, the pixel index): store, pointers and flag stay, and the
    flag is not read. *)
Lemma pixel_isr_inside s :
  store_ok (rawpixelsetbuffer s) -> (displayedRawPixelSet s < 2)%nat ->
  cursor_ok s -> ~ at_wrap s ->
  exists s',
    pixel_isr s = Some (tt, s') /\
    rawpixelsetbuffer s' = rawpixelsetbuffer s /\
    displayedRawPixelSet s' = displayedRawPixelSet s /\
    bufferedRawPixelSet s' = bufferedRawPixelSet s /\
    pendingRawPixelBufferSwap s' = pendingRawPixelBufferSwap s /\
    cursor s' = next_cursor (cursor s) /\
    flag_reads (io s') = flag_reads (io s).
Proof.
  intros Hok Hd Hc Hw.
  destruct (pixel_at_Some _ _ _ Hok Hd (proj1 Hc)) as (ps & px & Hps & Hpx & _).
  assert (Hpa : pixel_at (rawpixelsetbuffer s) (displayedRawPixelSet s)
                  (currentPixelIndex s) = Some px).
  { unfold pixel_at. by rewrite Hps. }
  clear Hps Hpx.
  pose proof (phase_cases s Hc) as Hph.
  pose proof (index_cases s Hc) as Hix.
  unfold at_wrap in Hw.
  destruct s as [bufs d bf index ph pend tr]; simpl in *.
  unfold pixel_isr, cursor.
  destruct Hph as [->|[->|[->|[->| ->]]]].
  - unfold_m. unfold deactivateAnodes. unfold_m. simpl.
    rewrite Hpa.
    destruct (rawValueB px =? 255); simpl; eexists; repeat split.
  - destruct Hix as [->|[->|[->|[->|[->| ->]]]]];
      unfold_m; simpl; rewrite Hpa; simpl; eexists; repeat split.
  - unfold_m. simpl. rewrite Hpa.
    simpl; eexists; repeat split.
  - unfold_m. simpl. rewrite Hpa.
    simpl; eexists; repeat split.
  - destruct Hix as [->|[->|[->|[->|[->| ->]]]]];
      try (exfalso; apply Hw; split; reflexivity);
      unfold_m; simpl; eexists; repeat split.
Qed.

(** At the wrap the handler reads the flag once; it exchanges the two
    pointers and clears the flag exactly when the flag is set. *)
Lemma pixel_isr_wrap s :
  at_wrap s ->
  exists s',
    pixel_isr s = Some (tt, s') /\
    rawpixelsetbuffer s' = rawpixelsetbuffer s /\
    cursor s' = (0, 0) /\
    flag_reads (io s') = S (flag_reads (io s)) /\
    (if decide (pendingRawPixelBufferSwap s = 0)
     then displayedRawPixelSet s' = displayedRawPixelSet s /\
          bufferedRawPixelSet s' = bufferedRawPixelSet s
     else displayedRawPixelSet s' = bufferedRawPixelSet s /\
          bufferedRawPixelSet s' = displayedRawPixelSet s) /\
    pendingRawPixelBufferSwap s' = 0.
Proof.
  intros [Hp Hi].
  destruct s as [bufs d bf index ph pend tr]; simpl in *. subst.
  unfold pixel_isr, cursor. unfold_m. simpl.
  destruct (N.eqb_spec pend 0) as [->|Hne]; simpl.
  - eexists; repeat split. 
  - eexists. split; [reflexivity|]. simpl.
    destruct (decide (pend = 0)); [done|]. repeat split.
Qed.

Lemma at_wrap_ticks s :
  cursor_ok s -> (at_wrap s <-> ticks_before_wrap s = 0%nat).
Proof.
  unfold cursor_ok, at_wrap, ticks_before_wrap, PIXEL_COUNT. lia.
Qed.

Lemma next_cursor_ok s s' :
  cursor_ok s -> ~ at_wrap s -> cursor s' = next_cursor (cursor s) ->
  cursor_ok s' /\ ticks_before_wrap s = S (ticks_before_wrap s').
Proof.
  unfold cursor_ok, at_wrap, ticks_before_wrap, cursor, next_cursor, PIXEL_COUNT.
  intros [Hi Hp] Hw Heq.
  destruct (N.eqb_spec (phase s) 4) as [H4|H4];
    [destruct (N.eqb_spec (currentPixelIndex s) (6 - 1)) as [H5|H5]|];
    injection Heq as -> ->; lia.
Qed.

Lemma pixel_isr_wf s :
  wf s -> exists s', pixel_isr s = Some (tt, s') /\ wf s'.
Proof.
  intros [Hok Hptr Hc].
  destruct (decide (phase s = 4 /\ currentPixelIndex s = PIXEL_COUNT - 1))
    as [Hw|Hw].
  - destruct (pixel_isr_wrap s Hw) as (s' & Hrun & Hst & Hcur & _ & Hsw & _).
    exists s'. split; [done|]. unfold cursor in Hcur. injection Hcur as Hi Hp.
    split.
    + by rewrite Hst.
    + unfold pointers_ok in *. destruct (decide _); lia.
    + unfold cursor_ok. rewrite Hi, Hp. done.
  - destruct (pixel_isr_inside s Hok (proj1 Hptr) Hc Hw)
      as (s' & Hrun & Hst & Hd & Hb & _ & Hcur & _).
    exists s'. split; [done|]. split.
    + by rewrite Hst.
    + unfold pointers_ok in *. lia.
    + by destruct (next_cursor_ok s s' Hc Hw Hcur).
Qed.

(** * Runs of timer overflows *)

Lemma pixel_isr_n_S n s :
  pixel_isr_n (S n) s =
  match pixel_isr s with
  | Some (_, s') => pixel_isr_n n s'
  | None => None
  end.
Proof. reflexivity. Qed.

(** Overflows that stay short of the wrap change neither the store, nor
    the pointers, nor the flag, and do not read the flag. *)
Lemma pixel_isr_n_inside n : forall s,
  wf s -> (n <= ticks_before_wrap s)%nat ->
  exists s',
    pixel_isr_n n s = Some (tt, s') /\ wf s' /\
    rawpixelsetbuffer s' = rawpixelsetbuffer s /\
    displayedRawPixelSet s' = displayedRawPixelSet s /\
    bufferedRawPixelSet s' = bufferedRawPixelSet s /\
    pendingRawPixelBufferSwap s' = pendingRawPixelBufferSwap s /\
    flag_reads (io s') = flag_reads (io s) /\
    ticks_before_wrap s = (n + ticks_before_wrap s')%nat.
Proof.
  induction n as [|n IH]; intros s Hwf Hn.
  - exists s. split; [done|]. split; [done|]. repeat split.
  - assert (Hw : ~ at_wrap s).
    { rewrite (at_wrap_ticks s (wf_cursor s Hwf)). lia. }
    destruct (pixel_isr_inside s (wf_store s Hwf)
                (proj1 (wf_pointers s Hwf)) (wf_cursor s Hwf) Hw)
      as (s1 & Hrun & Hst & Hd & Hb & Hpend & Hcur & Hrd).
    destruct (pixel_isr_wf s Hwf) as (s1' & Hrun' & Hwf1).
    assert (s1' = s1) as -> by congruence.
    destruct (next_cursor_ok s s1 (wf_cursor s Hwf) Hw Hcur) as [_ Ht].
    destruct (IH s1 Hwf1 ltac:(lia))
      as (s' & Hrun2 & Hwf' & Hst' & Hd' & Hb' & Hpend' & Hrd' & Ht').
    exists s'. rewrite pixel_isr_n_S, Hrun.
    split; [done|]. split; [done|].
    repeat split; try congruence. lia.
Qed.

(** * The busy wait of the foreground *)

Lemma wait_S fuel s :
  wait_pendingRawPixelBufferSwap (S fuel) s =
  if decide (pendingRawPixelBufferSwap s = 0)
  then Some (tt, emit (LD_pendingRawPixelBufferSwap 0) s)
  else match pixel_isr (emit (LD_pendingRawPixelBufferSwap
                                (pendingRawPixelBufferSwap s)) s) with
       | Some (_, s') => wait_pendingRawPixelBufferSwap fuel s'
       | None => None
       end.
Proof.
  simpl. unfold_m. simpl.
  destruct (decide _) as [->|Hne]; [reflexivity|].
  destruct (N.eqb_spec (pendingRawPixelBufferSwap s) 0); [done|reflexivity].
Qed.

Lemma wf_emit e s : wf s -> wf (emit e s).
Proof. intros [? ? ?]. split; assumption. Qed.

(** With a request pending, the wait returns once the scan has wrapped:
    [ticks_before_wrap s + 1] overflows are enough.  On return the
    pointers are exchanged, the flag is clear, the store is as it was
    and the cursor is at the start of a frame. *)
Lemma wait_spec fuel : forall s,
  wf s -> pendingRawPixelBufferSwap s <> 0 ->
  (ticks_before_wrap s < fuel)%nat ->
  exists s',
    wait_pendingRawPixelBufferSwap fuel s = Some (tt, s') /\ wf s' /\
    rawpixelsetbuffer s' = rawpixelsetbuffer s /\
    displayedRawPixelSet s' = bufferedRawPixelSet s /\
    bufferedRawPixelSet s' = displayedRawPixelSet s /\
    pendingRawPixelBufferSwap s' = 0 /\
    cursor s' = (0, 0).
Proof.
  induction fuel as [|fuel IH]; intros s Hwf Hpend Hfuel; [lia|].
  rewrite wait_S. destruct (decide _) as [|_]; [done|].
  set (s0 := emit _ s).
  assert (Hwf0 : wf s0) by by apply wf_emit.
  destruct (decide (phase s0 = 4 /\ currentPixelIndex s0 = PIXEL_COUNT - 1))
    as [Hw|Hw].
  - destruct (pixel_isr_wrap s0 Hw) as (s1 & Hrun & Hst & Hcur & _ & Hsw & Hp1).
    destruct (pixel_isr_wf s0 Hwf0) as (s1' & Hrun' & Hwf1).
    assert (s1' = s1) as -> by congruence.
    rewrite Hrun. destruct (decide _) as [|_]; [done|]. destruct Hsw as [Hd Hb].
    subst s0.
    destruct fuel as [|fuel]; simpl; unfold_m; rewrite Hp1; simpl;
      (eexists; split; [reflexivity|]; split; [by apply wf_emit|];
       norm_emit; repeat split; congruence).
  - destruct (pixel_isr_inside s0 (wf_store _ Hwf0)
                (proj1 (wf_pointers _ Hwf0)) (wf_cursor _ Hwf0) Hw)
      as (s1 & Hrun & Hst & Hd & Hb & Hpend1 & Hcur & _).
    destruct (pixel_isr_wf s0 Hwf0) as (s1' & Hrun' & Hwf1).
    assert (s1' = s1) as -> by congruence.
    destruct (next_cursor_ok s0 s1 (wf_cursor _ Hwf0) Hw Hcur) as [_ Ht].
    rewrite Hrun.
    change (ticks_before_wrap s0) with (ticks_before_wrap s) in Ht.
    subst s0. norm_emit.
    destruct (IH s1 Hwf1) as (s' & Hrun2 & Hwf' & Hst' & Hd' & Hb' & Hp' & Hc').
    { by rewrite Hpend1. }
    { lia. }
    exists s'. split; [done|]. split; [done|].
    repeat split; try done; congruence.
Qed.

Lemma ticks_before_wrap_bound s : (ticks_before_wrap s < 30)%nat.
Proof. unfold ticks_before_wrap, PIXEL_COUNT. lia. Qed.

(** * The foreground entry points *)

Lemma store_lookup_Some bufs set :
  store_ok bufs -> (set < 2)%nat ->
  exists ps, bufs !! set = Some ps /\ length (rawpixels ps) = 6%nat.
Proof.
  intros [Hlen Hall] Hset.
  destruct (lookup_lt_is_Some_2 bufs set) as [ps Hps].
  { rewrite Hlen. change (N.to_nat RAW_PIXEL_SET_BUFFER_COUNT) with 2%nat. lia. }
  exists ps. split; [done|].
  rewrite Forall_lookup in Hall. apply (Hall _ _ Hps).
Qed.

(** [pixel_displayBufferedPixels] returns given fuel for one frame, with
    the pointers exchanged and the set that was buffered now both
    displayed and copied into the new buffered set. *)
Lemma pixel_displayBufferedPixels_spec fuel s :
  wf s -> (30 <= fuel)%nat ->
  exists s' ps,
    pixel_displayBufferedPixels fuel s = Some (tt, s') /\ wf s' /\
    buffered_set s = Some ps /\
    displayedRawPixelSet s' = bufferedRawPixelSet s /\
    bufferedRawPixelSet s' = displayedRawPixelSet s /\
    rawpixelsetbuffer s' = <[displayedRawPixelSet s := ps]> (rawpixelsetbuffer s) /\
    displayed_set s' = Some ps /\
    buffered_set s' = Some ps /\
    pendingRawPixelBufferSwap s' = 0 /\
    cursor s' = (0, 0).
Proof.
  intros Hwf Hfuel.
  pose proof (ticks_before_wrap_bound s) as Hbound.
  set (s0 := emit (ST_pendingRawPixelBufferSwap 1)
               (set_pendingRawPixelBufferSwap 1 s)).
  assert (Hwf0 : wf s0) by (destruct Hwf; split; assumption).
  destruct (wait_spec fuel s0 Hwf0) as (s1 & Hrun & Hwf1 & Hst & Hd & Hb & Hp & Hc).
  { discriminate. }
  { change (ticks_before_wrap s0) with (ticks_before_wrap s). lia. }
  change (rawpixelsetbuffer s0) with (rawpixelsetbuffer s) in Hst.
  change (bufferedRawPixelSet s0) with (bufferedRawPixelSet s) in Hd.
  change (displayedRawPixelSet s0) with (displayedRawPixelSet s) in Hb.
  destruct (wf_pointers s Hwf) as (Hdlt & Hblt & Hne).
  destruct (store_lookup_Some _ _ (wf_store s Hwf) Hblt) as (ps & Hps & Hlen).
  assert (Hdlen : (displayedRawPixelSet s < length (rawpixelsetbuffer s))%nat).
  { destruct (store_lookup_Some _ _ (wf_store s Hwf) Hdlt) as (ps' & Hps' & _).
    apply lookup_lt_is_Some. eauto. }
  eexists. exists ps.
  split.
  { unfold pixel_displayBufferedPixels, bind at 1.
    unfold store_pendingRawPixelBufferSwap, modify. fold s0.
    unfold bind at 1. rewrite Hrun.
    unfold_m. unfold memcpy_rawpixelset.
    rewrite Hst, Hd, Hb, Hps.
    destruct (decide _) as [_|Hn]; [reflexivity|done]. }
  unfold displayed_set, buffered_set, cursor in *. simpl.
  rewrite Hd, Hb.
  split.
  { split; simpl.
    - apply store_ok_insert; [apply (wf_store s Hwf)|done].
    - unfold pointers_ok. simpl. lia.
    - apply (wf_cursor s1 Hwf1). }
  split; [done|]. split; [done|]. split; [done|]. split; [done|].
  split.
  { rewrite list_lookup_insert_ne by done. exact Hps. }
  split.
  { by rewrite list_lookup_insert_eq. }
  split; [done|]. exact Hc.
Qed.

(** The raw write: the three fields of the addressed slot of the
    buffered set are assigned; nothing else of the state moves. *)
Lemma pixel_bufferedSetPixelRaw_spec pixel vr vg vb s :
  store_ok (rawpixelsetbuffer s) -> (bufferedRawPixelSet s < 2)%nat ->
  pixel < PIXEL_COUNT ->
  exists s',
    pixel_bufferedSetPixelRaw pixel vr vg vb s = Some (tt, s') /\
    pixel_at (rawpixelsetbuffer s') (bufferedRawPixelSet s) pixel =
      Some {| rawValueR := vr; rawValueG := vg; rawValueB := vb |} /\
    (forall set i, (set <> bufferedRawPixelSet s \/ i <> pixel) ->
       pixel_at (rawpixelsetbuffer s') set i =
       pixel_at (rawpixelsetbuffer s) set i) /\
    store_ok (rawpixelsetbuffer s') /\
    displayedRawPixelSet s' = displayedRawPixelSet s /\
    bufferedRawPixelSet s' = bufferedRawPixelSet s /\
    currentPixelIndex s' = currentPixelIndex s /\
    phase s' = phase s /\
    pendingRawPixelBufferSwap s' = pendingRawPixelBufferSwap s /\
    io s' = io s.
Proof.
  intros Hok Hb Hi.
  destruct (store_field_spec upd_rawValueR _ pixel vr s Hok Hb Hi)
    as (px1 & s1 & _ & Hrun1 & Hpx1 & Hfr1 & Hok1 & Hd1 & Hb1 & Hi1 & Hp1 & Hn1 & Hio1).
  destruct (store_field_spec upd_rawValueG (bufferedRawPixelSet s) pixel vg s1 Hok1 Hb Hi)
    as (px2 & s2 & Hpx2' & Hrun2 & Hpx2 & Hfr2 & Hok2 & Hd2 & Hb2 & Hi2 & Hp2 & Hn2 & Hio2).
  destruct (store_field_spec upd_rawValueB (bufferedRawPixelSet s) pixel vb s2 Hok2 Hb Hi)
    as (px3 & s3 & Hpx3' & Hrun3 & Hpx3 & Hfr3 & Hok3 & Hd3 & Hb3 & Hi3 & Hp3 & Hn3 & Hio3).
  exists s3.
  split.
  { unfold pixel_bufferedSetPixelRaw. unfold_m.
    by rewrite Hrun1, Hrun2, Hrun3. }
  split.
  { rewrite Hpx3. f_equal.
    assert (px3 = upd_rawValueG vg px2) as -> by congruence.
    assert (px2 = upd_rawValueR vr px1) as -> by congruence.
    reflexivity. }
  split.
  { intros set i Hne. rewrite Hfr3, Hfr2, Hfr1; done. }
  split; [done|]. repeat split; congruence.
Qed.

(** The gamma-mapped write: as the raw write, with each channel taken
    from its table. *)
Lemma pixel_bufferedSetPixel_spec pixel c s :
  store_ok (rawpixelsetbuffer s) -> (bufferedRawPixelSet s < 2)%nat ->
  pixel < PIXEL_COUNT -> color_ok c ->
  exists s' vr vg vb,
    gamma8R !! N.to_nat (r c) = Some vr /\
    gamma8G !! N.to_nat (g c) = Some vg /\
    gamma8B !! N.to_nat (b c) = Some vb /\
    pixel_bufferedSetPixel pixel c s = Some (tt, s') /\
    pixel_bufferedSetPixelRaw pixel vr vg vb s = Some (tt, s').
Proof.
  intros Hok Hb Hi (Hr & Hg & Hbl).
  destruct (pixel_bufferedSetPixelRaw_spec pixel
              (default 0 (gamma8R !! N.to_nat (r c)))
              (default 0 (gamma8G !! N.to_nat (g c)))
              (default 0 (gamma8B !! N.to_nat (b c))) s Hok Hb Hi)
    as (s' & Hrun & _).
  destruct (lookup_lt_is_Some_2 gamma8R (N.to_nat (r c))) as [vr Hvr];
    [simpl; lia|].
  destruct (lookup_lt_is_Some_2 gamma8G (N.to_nat (g c))) as [vg Hvg];
    [simpl; lia|].
  destruct (lookup_lt_is_Some_2 gamma8B (N.to_nat (b c))) as [vb Hvb];
    [simpl; lia|].
  rewrite Hvr, Hvg, Hvb in Hrun. simpl in Hrun.
  exists s', vr, vg, vb.
  split; [done|]. split; [done|]. split; [done|]. split; [|done].
  revert Hrun. unfold pixel_bufferedSetPixel, pixel_bufferedSetPixelRaw.
  unfold bind, gets, pgm_read_byte. rewrite Hvr, Hvg, Hvb.
  destruct (store_field upd_rawValueR _ _ _ _) as [[[] s1]|]; [|done].
  destruct (store_field upd_rawValueG _ _ _ _) as [[[] s2]|]; [|done].
  done.
Qed.

Lemma pixel_at_lookup bufs set ps i :
  bufs !! set = Some ps -> pixel_at bufs set i = rawpixels ps !! N.to_nat i.
Proof. intros H. unfold pixel_at. by rewrite H. Qed.

Lemma wf_same_control s s' :
  wf s -> store_ok (rawpixelsetbuffer s') ->
  displayedRawPixelSet s' = displayedRawPixelSet s ->
  bufferedRawPixelSet s' = bufferedRawPixelSet s ->
  currentPixelIndex s' = currentPixelIndex s ->
  phase s' = phase s ->
  wf s'.
Proof.
  intros [Hok Hptr Hc] Hok' Hd Hb Hi Hp. split; [done| |].
  - unfold pointers_ok in *. by rewrite Hd, Hb.
  - unfold cursor_ok in *. by rewrite Hi, Hp.
Qed.

Lemma exec_bind {A B} (m : M A) (k : A -> M B) s a s1 :
  m s = Some (a, s1) -> exec (bind m k) s = exec (k a) s1.
Proof. intros H. unfold exec, bind. by rewrite H. Qed.

Lemma exec_Some {A} (m : M A) s a s' :
  m s = Some (a, s') -> exec m s = Some s'.
Proof. intros H. unfold exec. by rewrite H. Qed.

Lemma pixel_isr_n_add n m s :
  pixel_isr_n (n + m) s =
  match pixel_isr_n n s with
  | Some (_, s') => pixel_isr_n m s'
  | None => None
  end.
Proof.
  revert s. induction n as [|n IH]; intros s; [reflexivity|].
  simpl. unfold bind. destruct (pixel_isr s) as [[[] s1]|]; [|done].
  apply IH.
Qed.

(** With no request pending, timer overflows never touch the store,
    the pointers or the flag. *)
Lemma pixel_isr_n_idle n : forall s,
  wf s -> pendingRawPixelBufferSwap s = 0 ->
  exists s',
    pixel_isr_n n s = Some (tt, s') /\ wf s' /\
    rawpixelsetbuffer s' = rawpixelsetbuffer s /\
    displayedRawPixelSet s' = displayedRawPixelSet s /\
    bufferedRawPixelSet s' = bufferedRawPixelSet s /\
    pendingRawPixelBufferSwap s' = 0.
Proof.
  induction n as [|n IH]; intros s Hwf Hp.
  - exists s. split; [done|]. split; [done|]. repeat split. done.
  - destruct (pixel_isr_wf s Hwf) as (s1 & Hrun & Hwf1).
    assert (H1 : rawpixelsetbuffer s1 = rawpixelsetbuffer s /\
                 displayedRawPixelSet s1 = displayedRawPixelSet s /\
                 bufferedRawPixelSet s1 = bufferedRawPixelSet s /\
                 pendingRawPixelBufferSwap s1 = 0).
    { destruct (decide (phase s = 4 /\ currentPixelIndex s = PIXEL_COUNT - 1))
        as [Hw|Hw].
      - destruct (pixel_isr_wrap s Hw) as (s1' & Hrun' & Hst & _ & _ & Hsw & Hp1).
        assert (s1' = s1) as -> by congruence.
        destruct (decide _); [|done]. destruct Hsw. done.
      - destruct (pixel_isr_inside s (wf_store _ Hwf)
                    (proj1 (wf_pointers _ Hwf)) (wf_cursor _ Hwf) Hw)
          as (s1' & Hrun' & Hst & Hd & Hb & Hp1 & _).
        assert (s1' = s1) as -> by congruence.
        rewrite Hp1. done. }
    destruct H1 as (Hst & Hd & Hb & Hp1).
    destruct (IH s1 Hwf1 Hp1) as (s' & Hrun2 & Hwf' & Hst' & Hd' & Hb' & Hp').
    exists s'. rewrite pixel_isr_n_S, Hrun.
    split; [done|]. split; [done|]. repeat split; congruence.
Qed.

Lemma length6 {A} (l : list A) :
  length l = 6%nat -> exists a0 a1 a2 a3 a4 a5, l = [a0; a1; a2; a3; a4; a5].
Proof.
  intros H.
  destruct l as [|a0 [|a1 [|a2 [|a3 [|a4 [|a5 [|a6 l]]]]]]]; try discriminate.
  by exists a0, a1, a2, a3, a4, a5.
Qed.

Lemma store_ok_shape bufs :
  store_ok bufs ->
  exists l0 l1, bufs = [ {| rawpixels := l0 |}; {| rawpixels := l1 |} ] /\
                length l0 = 6%nat /\ length l1 = 6%nat.
Proof.
  intros [Hlen Hall].
  destruct bufs as [|[l0] [|[l1] [|? ?]]]; try discriminate.
  exists l0, l1. split; [done|].
  inversion Hall as [|? ? H0 Hall']; subst.
  inversion Hall' as [|? ? H1 _]; subst. done.
Qed.

Lemma all_off_filled :
  all_off (replicate 2 {| rawpixels := replicate 6 off_pixel |}).
Proof.
  intros set i Hset Hi. unfold PIXEL_COUNT in Hi.
  assert (Hs : set = 0%nat \/ set = 1%nat) by lia.
  assert (Hc : i = 0 \/ i = 1 \/ i = 2 \/ i = 3 \/ i = 4 \/ i = 5) by lia.
  destruct Hs as [->| ->]; destruct Hc as [->|[->|[->|[->|[->| ->]]]]];
    reflexivity.
Qed.

(** * The gamma tables *)

Lemma StronglySorted_lookup_ge (l : list N) :
  StronglySorted (fun x y => y <= x) l ->
  forall i j x y, (i <= j)%nat -> l !! i = Some x -> l !! j = Some y -> y <= x.
Proof.
  induction 1 as [|a l Hs IH Hall]; intros i j x y Hij Hi Hj; [done|].
  destruct i as [|i]; destruct j as [|j]; simpl in *.
  - assert (x = y) by congruence. lia.
  - injection Hi as <-. rewrite Forall_lookup in Hall. apply (Hall _ _ Hj).
  - lia.
  - apply (IH i j); [lia|done|done].
Qed.

Lemma gamma8R_sorted : StronglySorted (fun x y => y <= x) gamma8R.
Proof. unfold gamma8R. repeat (constructor; [|repeat constructor; lia]). constructor. Qed.

Lemma gamma8G_sorted : StronglySorted (fun x y => y <= x) gamma8G.
Proof. exact gamma8R_sorted. Qed.

Lemma gamma8B_sorted : StronglySorted (fun x y => y <= x) gamma8B.
Proof. exact gamma8R_sorted. Qed.

(** What the gamma-mapped write leaves in the addressed buffered slot. *)
Lemma pixel_bufferedSetPixel_result pixel c s :
  store_ok (rawpixelsetbuffer s) -> (bufferedRawPixelSet s < 2)%nat ->
  pixel < PIXEL_COUNT -> color_ok c ->
  exists s' vr vg vb,
    gamma8R !! N.to_nat (r c) = Some vr /\
    gamma8G !! N.to_nat (g c) = Some vg /\
    gamma8B !! N.to_nat (b c) = Some vb /\
    exec (pixel_bufferedSetPixel pixel c) s = Some s' /\
    buffered_pixel s' pixel =
      Some {| rawValueR := vr; rawValueG := vg; rawValueB := vb |}.
Proof.
  intros Hok Hb Hi Hc.
  destruct (pixel_bufferedSetPixel_spec pixel c s Hok Hb Hi Hc)
    as (s' & vr & vg & vb & Hr & Hg & Hbl & Hrun & Hraw).
  destruct (pixel_bufferedSetPixelRaw_spec pixel vr vg vb s Hok Hb Hi)
    as (s'' & Hraw' & Hpx & _ & _ & _ & Hbuf & _).
  assert (s'' = s') as -> by congruence.
  exists s', vr, vg, vb. split; [done|]. split; [done|]. split; [done|].
  split; [by apply exec_Some with tt|].
  unfold buffered_pixel. by rewrite Hbuf.
Qed.

(** [pixel_init] fills the store and leaves pointers, cursor and flag
    alone. *)
Lemma pixel_init_spec s :
  store_ok (rawpixelsetbuffer s) ->
  exists s',
    pixel_init s = Some (tt, s') /\
    rawpixelsetbuffer s' =
      replicate 2 {| rawpixels := replicate 6 off_pixel |} /\
    displayedRawPixelSet s' = displayedRawPixelSet s /\
    bufferedRawPixelSet s' = bufferedRawPixelSet s /\
    currentPixelIndex s' = currentPixelIndex s /\
    phase s' = phase s /\
    pendingRawPixelBufferSwap s' = pendingRawPixelBufferSwap s.
Proof.
  intros Hok.
  destruct (store_ok_shape _ Hok) as (l0 & l1 & Hbufs & Hl0 & Hl1).
  destruct (length6 l0 Hl0) as (a0 & a1 & a2 & a3 & a4 & a5 & ->).
  destruct (length6 l1 Hl1) as (b0 & b1 & b2 & b3 & b4 & b5 & ->).
  destruct s as [bufs d bf index ph pend tr]. simpl in Hbufs. subst bufs.
  eexists. split; [cbv; reflexivity|]. repeat split.
Qed.

Lemma exec_inv {A} (m : M A) s a s1 s' :
  m s = Some (a, s1) -> exec m s = Some s' -> s' = s1.
Proof. intros H. unfold exec. rewrite H. congruence. Qed.

(** Every state the program reaches from reset satisfies [wf]. *)
Lemma step_wf s s' : wf s -> step s s' -> wf s'.
Proof.
  intros Hwf [Hrun|Hrun|pixel vr vg vb Hi Hrun|pixel c Hi Hc Hrun|fuel Hf Hrun].
  - destruct (pixel_init_spec s (wf_store s Hwf))
      as (s1 & Hrun1 & Hst & Hd & Hb & Hix & Hph & _).
    rewrite (exec_inv _ _ _ _ _ Hrun1 Hrun).
    apply (wf_same_control s); try done.
    rewrite Hst. split; [reflexivity|repeat constructor].
  - destruct (pixel_isr_wf s Hwf) as (s1 & Hrun1 & Hwf1).
    by rewrite (exec_inv _ _ _ _ _ Hrun1 Hrun).
  - destruct (pixel_bufferedSetPixelRaw_spec pixel vr vg vb s
                (wf_store s Hwf) (proj1 (proj2 (wf_pointers s Hwf))) Hi)
      as (s1 & Hrun1 & _ & _ & Hok1 & Hd & Hb & Hix & Hph & _).
    rewrite (exec_inv _ _ _ _ _ Hrun1 Hrun).
    by apply (wf_same_control s).
  - destruct (pixel_bufferedSetPixel_spec pixel c s
                (wf_store s Hwf) (proj1 (proj2 (wf_pointers s Hwf))) Hi Hc)
      as (s1 & xr & xg & xb & _ & _ & _ & Hrun1 & Hraw).
    destruct (pixel_bufferedSetPixelRaw_spec pixel xr xg xb s
                (wf_store s Hwf) (proj1 (proj2 (wf_pointers s Hwf))) Hi)
      as (s1' & Hraw' & _ & _ & Hok1 & Hd & Hb & Hix & Hph & _).
    assert (s1' = s1) as -> by congruence.
    rewrite (exec_inv _ _ _ _ _ Hrun1 Hrun).
    by apply (wf_same_control s).
  - destruct (pixel_displayBufferedPixels_spec fuel s Hwf Hf)
      as (s1 & ps & Hrun1 & Hwf1 & _).
    by rewrite (exec_inv _ _ _ _ _ Hrun1 Hrun).
Qed.

Lemma reachable_wf s : reachable s -> wf s.
Proof.
  induction 1 as [|s s' _ IH Hstep]; [apply boot_state_wf|].
  by apply (step_wf s).
Qed.

(** * Sample runs *)

Example gamma8R_brightest : gamma8R !! 31%nat = Some 1.
Proof. reflexivity. Qed.

Example request_not_served_before_wrap :
  displayedRawPixelSet <$> exec (pixel_isr_n 16) mid_scan_request = Some 0%nat /\
  cursor <$> exec (pixel_isr_n 16) mid_scan_request = Some (5, 4).
Proof. split; vm_compute; reflexivity. Qed.

Example request_served_at_wrap :
  displayedRawPixelSet <$> exec (pixel_isr_n 17) mid_scan_request = Some 1%nat /\
  pendingRawPixelBufferSwap <$> exec (pixel_isr_n 17) mid_scan_request = Some 0 /\
  cursor <$> exec (pixel_isr_n 17) mid_scan_request = Some (0, 0).
Proof. repeat split; vm_compute; reflexivity. Qed.

Example display_needs_a_whole_frame_of_fuel :
  exec (pixel_displayBufferedPixels 29) boot_state = None /\
  is_Some (exec (pixel_displayBufferedPixels 30) boot_state).
Proof. split; [vm_compute; reflexivity|]. vm_compute. eexists. reflexivity. Qed.

(** * The properties *)

(** C1. For every pixel index in 0..5 and all raw compare values in
    0..255, [pixel_bufferedSetPixelRaw] followed immediately by
    [pixel_displayBufferedPixels] returns, and the displayed set then
    holds exactly the written values at that index. *)
Theorem raw_write_then_display_roundtrip s fuel pixel vr vg vb :
  wf s -> (30 <= fuel)%nat ->
  pixel < PIXEL_COUNT -> vr <= 255 -> vg <= 255 -> vb <= 255 ->
  exists s',
    exec (pixel_bufferedSetPixelRaw pixel vr vg vb;;
          pixel_displayBufferedPixels fuel) s = Some s' /\
    displayed_pixel s' pixel =
      Some {| rawValueR := vr; rawValueG := vg; rawValueB := vb |}.
Proof.
  intros Hwf Hfuel Hi _ _ _.
  destruct (wf_pointers s Hwf) as (_ & Hb & _).
  destruct (pixel_bufferedSetPixelRaw_spec pixel vr vg vb s (wf_store s Hwf) Hb Hi)
    as (s1 & Hrun1 & Hpx & _ & Hok1 & Hd1 & Hb1 & Hi1 & Hp1 & _).
  assert (Hwf1 : wf s1) by by apply (wf_same_control s).
  destruct (pixel_displayBufferedPixels_spec fuel s1 Hwf1 Hfuel)
    as (s2 & ps & Hrun2 & _ & Hbs & _ & _ & _ & Hds & _).
  exists s2. split.
  - rewrite (exec_bind _ _ _ _ _ Hrun1). by apply exec_Some with tt.
  - unfold displayed_pixel, displayed_set, buffered_set in *.
    rewrite (pixel_at_lookup _ _ _ _ Hds).
    rewrite <- Hb1 in Hpx. by rewrite (pixel_at_lookup _ _ _ _ Hbs) in Hpx.
Qed.

Lemma raw_write_then_display_roundtrip_witness :
  exists s',
    exec (pixel_bufferedSetPixelRaw 3 10 200 255;;
          pixel_displayBufferedPixels 30) boot_state = Some s' /\
    displayed_pixel s' 3 =
      Some {| rawValueR := 10; rawValueG := 200; rawValueB := 255 |}.
Proof.
  apply (raw_write_then_display_roundtrip boot_state 30 3 10 200 255).
  - split; [split; [reflexivity|repeat constructor]
           |repeat split; simpl; lia
           |split; reflexivity].
  - lia.
  - reflexivity.
  - lia.
  - lia.
  - lia.
Defined.

(** C2. The handler exchanges the displayed and buffered sets only in
    the overflow where phase 4 steps the pixel index past the last
    pixel.  Any other overflow, and that one when no request is
    pending, leaves both pointers, the store and the flag as they were.
    Whatever the phase and pixel position at which a request stands,
    through all the overflows before the wrap the displayed set
    (pointer and contents) and the pending flag are unchanged; and the
    overflow that wraps performs the swap. *)
Theorem swap_only_at_frame_boundary s :
  wf s ->
  (forall s', exec pixel_isr s = Some s' ->
     ~ (at_wrap s /\ pendingRawPixelBufferSwap s <> 0) ->
     displayedRawPixelSet s' = displayedRawPixelSet s /\
     bufferedRawPixelSet s' = bufferedRawPixelSet s /\
     rawpixelsetbuffer s' = rawpixelsetbuffer s /\
     pendingRawPixelBufferSwap s' = pendingRawPixelBufferSwap s) /\
  (forall n, (n <= ticks_before_wrap s)%nat ->
     exists s',
       exec (pixel_isr_n n) s = Some s' /\
       displayedRawPixelSet s' = displayedRawPixelSet s /\
       rawpixelsetbuffer s' = rawpixelsetbuffer s /\
       displayed_set s' = displayed_set s /\
       pendingRawPixelBufferSwap s' = pendingRawPixelBufferSwap s) /\
  (pendingRawPixelBufferSwap s <> 0 ->
     exists s',
       exec (pixel_isr_n (S (ticks_before_wrap s))) s = Some s' /\
       displayedRawPixelSet s' = bufferedRawPixelSet s /\
       bufferedRawPixelSet s' = displayedRawPixelSet s /\
       rawpixelsetbuffer s' = rawpixelsetbuffer s /\
       displayed_set s' = buffered_set s /\
       pendingRawPixelBufferSwap s' = 0).
Proof.
  intros Hwf. split; [|split].
  - intros s' Hrun Hno.
    destruct (decide (phase s = 4 /\ currentPixelIndex s = PIXEL_COUNT - 1))
      as [Hw|Hw].
    + destruct (pixel_isr_wrap s Hw) as (s1 & Hrun1 & Hst & _ & _ & Hsw & Hp1).
      rewrite (exec_Some _ _ _ _ Hrun1) in Hrun. injection Hrun as <-.
      destruct (decide _) as [Hz|Hnz]; [|by destruct Hno].
      destruct Hsw as [Hd Hb]. by rewrite Hz.
    + destruct (pixel_isr_inside s (wf_store _ Hwf)
                  (proj1 (wf_pointers _ Hwf)) (wf_cursor _ Hwf) Hw)
        as (s1 & Hrun1 & Hst & Hd & Hb & Hp1 & _).
      rewrite (exec_Some _ _ _ _ Hrun1) in Hrun. injection Hrun as <-. done.
  - intros n Hn.
    destruct (pixel_isr_n_inside n s Hwf Hn)
      as (s' & Hrun & _ & Hst & Hd & _ & Hp & _).
    exists s'. split; [by apply exec_Some with tt|].
    unfold displayed_set. rewrite Hst, Hd. done.
  - intros Hp.
    destruct (pixel_isr_n_inside (ticks_before_wrap s) s Hwf (le_n _))
      as (s1 & Hrun1 & Hwf1 & Hst1 & Hd1 & Hb1 & Hp1 & _ & Ht).
    assert (Hw : at_wrap s1).
    { apply (at_wrap_ticks s1 (wf_cursor _ Hwf1)). lia. }
    destruct (pixel_isr_wrap s1 Hw) as (s2 & Hrun2 & Hst2 & _ & _ & Hsw & Hp2).
    destruct (decide _) as [Hz|_]; [congruence|]. destruct Hsw as [Hd2 Hb2].
    exists s2. split.
    { replace (S (ticks_before_wrap s)) with (ticks_before_wrap s + 1)%nat by lia.
      unfold exec. rewrite pixel_isr_n_add, Hrun1. simpl.
      unfold bind, ret. by rewrite Hrun2. }
    unfold displayed_set, buffered_set.
    rewrite Hd2, Hb2, Hst2, Hst1, Hd1, Hb1. done.
Qed.

Lemma swap_only_at_frame_boundary_witness :
  (forall s', exec pixel_isr mid_scan_request = Some s' ->
     ~ (at_wrap mid_scan_request /\
        pendingRawPixelBufferSwap mid_scan_request <> 0) ->
     displayedRawPixelSet s' = displayedRawPixelSet mid_scan_request /\
     bufferedRawPixelSet s' = bufferedRawPixelSet mid_scan_request /\
     rawpixelsetbuffer s' = rawpixelsetbuffer mid_scan_request /\
     pendingRawPixelBufferSwap s' =
       pendingRawPixelBufferSwap mid_scan_request) /\
  (forall n, (n <= ticks_before_wrap mid_scan_request)%nat ->
     exists s',
       exec (pixel_isr_n n) mid_scan_request = Some s' /\
       displayedRawPixelSet s' = displayedRawPixelSet mid_scan_request /\
       rawpixelsetbuffer s' = rawpixelsetbuffer mid_scan_request /\
       displayed_set s' = displayed_set mid_scan_request /\
       pendingRawPixelBufferSwap s' =
         pendingRawPixelBufferSwap mid_scan_request) /\
  (pendingRawPixelBufferSwap mid_scan_request <> 0 ->
     exists s',
       exec (pixel_isr_n (S (ticks_before_wrap mid_scan_request)))
         mid_scan_request = Some s' /\
       displayedRawPixelSet s' = bufferedRawPixelSet mid_scan_request /\
       bufferedRawPixelSet s' = displayedRawPixelSet mid_scan_request /\
       rawpixelsetbuffer s' = rawpixelsetbuffer mid_scan_request /\
       displayed_set s' = buffered_set mid_scan_request /\
       pendingRawPixelBufferSwap s' = 0).
Proof.
  apply (swap_only_at_frame_boundary mid_scan_request).
  split; [split; [reflexivity|repeat constructor]
         |repeat split; simpl; lia
         |split; reflexivity].
Defined.

(** C4. When [pixel_displayBufferedPixels] returns, the buffered set
    and the displayed set, two different sets of the store, hold the
    same value in every slot and channel. *)
Theorem display_leaves_buffer_equal_to_displayed s fuel :
  wf s -> (30 <= fuel)%nat ->
  exists s' ps,
    exec (pixel_displayBufferedPixels fuel) s = Some s' /\
    displayedRawPixelSet s' <> bufferedRawPixelSet s' /\
    displayed_set s' = Some ps /\
    buffered_set s' = Some ps /\
    forall i, i < PIXEL_COUNT ->
      exists px, displayed_pixel s' i = Some px /\
                 buffered_pixel s' i = Some px.
Proof.
  intros Hwf Hfuel.
  destruct (pixel_displayBufferedPixels_spec fuel s Hwf Hfuel)
    as (s' & ps & Hrun & Hwf' & _ & _ & _ & _ & Hds & Hbs & _).
  exists s', ps. split; [by apply exec_Some with tt|].
  split; [apply (wf_pointers _ Hwf')|]. split; [done|]. split; [done|].
  intros i Hi.
  destruct (pixel_at_Some _ _ i (wf_store _ Hwf')
              (proj1 (wf_pointers _ Hwf')) Hi) as (ps' & px & Hps' & Hpx & _).
  unfold displayed_set, buffered_set in *.
  assert (ps' = ps) as -> by congruence.
  exists px. unfold displayed_pixel, buffered_pixel.
  by rewrite (pixel_at_lookup _ _ _ _ Hds), (pixel_at_lookup _ _ _ _ Hbs).
Qed.

Lemma display_leaves_buffer_equal_to_displayed_witness :
  exists s' ps,
    exec (pixel_displayBufferedPixels 30) mid_scan_request = Some s' /\
    displayedRawPixelSet s' <> bufferedRawPixelSet s' /\
    displayed_set s' = Some ps /\
    buffered_set s' = Some ps /\
    forall i, i < PIXEL_COUNT ->
      exists px, displayed_pixel s' i = Some px /\
                 buffered_pixel s' i = Some px.
Proof.
  apply (display_leaves_buffer_equal_to_displayed mid_scan_request 30).
  - split; [split; [reflexivity|repeat constructor]
           |repeat split; simpl; lia
           |split; reflexivity].
  - lia.
Defined.

(** C5. From the cursor (pixel 0, phase 0), 30 timer overflows bring
    the cursor back to (0, 0), and not fewer; the handler reads the
    pending-swap flag exactly once in those 30 runs; and after every
    one of them the pixel index is below 6 and the phase below 5. *)
Theorem cursor_cycle_of_30 s :
  store_ok (rawpixelsetbuffer s) -> pointers_ok s ->
  currentPixelIndex s = 0 -> phase s = 0 ->
  (exists s',
     exec (pixel_isr_n 30) s = Some s' /\
     cursor s' = (0, 0) /\
     flag_reads (io s') = S (flag_reads (io s))) /\
  (forall n, (0 < n < 30)%nat ->
     exists s', exec (pixel_isr_n n) s = Some s' /\ cursor s' <> (0, 0)) /\
  (forall n, (n <= 30)%nat ->
     exists s',
       exec (pixel_isr_n n) s = Some s' /\
       currentPixelIndex s' < PIXEL_COUNT /\
       (phase s' = 0 \/ phase s' = 1 \/ phase s' = 2 \/
        phase s' = 3 \/ phase s' = 4)).
Proof.
  intros Hok Hptr Hi Hp.
  assert (Hwf : wf s).
  { split; [done|done|]. unfold cursor_ok. rewrite Hi, Hp. done. }
  assert (Ht : ticks_before_wrap s = 29%nat).
  { unfold ticks_before_wrap. rewrite Hi, Hp. reflexivity. }
  assert (Hfull : exists s',
     pixel_isr_n 30 s = Some (tt, s') /\ cursor s' = (0, 0) /\
     flag_reads (io s') = S (flag_reads (io s))).
  { destruct (pixel_isr_n_inside 29 s Hwf ltac:(lia))
      as (s1 & Hrun1 & Hwf1 & _ & _ & _ & _ & Hrd1 & Ht1).
    assert (Hw : at_wrap s1).
    { apply (at_wrap_ticks s1 (wf_cursor _ Hwf1)). lia. }
    destruct (pixel_isr_wrap s1 Hw) as (s2 & Hrun2 & _ & Hc2 & Hrd2 & _).
    exists s2. split; [|split; [done|congruence]].
    change 30%nat with (29 + 1)%nat. rewrite pixel_isr_n_add, Hrun1.
    simpl. unfold bind, ret. by rewrite Hrun2. }
  split; [|split].
  - destruct Hfull as (s' & Hrun & Hc & Hrd).
    exists s'. split; [by apply exec_Some with tt|done].
  - intros n Hn.
    destruct (pixel_isr_n_inside n s Hwf ltac:(lia))
      as (s' & Hrun & _ & _ & _ & _ & _ & _ & Ht').
    exists s'. split; [by apply exec_Some with tt|].
    intros Hc. unfold cursor in Hc. injection Hc as Hi' Hp'.
    unfold ticks_before_wrap in Ht' at 2. rewrite Hi', Hp' in Ht'.
    change (N.to_nat _) with 29%nat in Ht'. lia.
  - intros n Hn.
    destruct (decide (n = 30%nat)) as [->|Hne].
    + destruct Hfull as (s' & Hrun & Hc & _).
      exists s'. split; [by apply exec_Some with tt|].
      unfold cursor in Hc. injection Hc as -> ->. split; [done|by left].
    + destruct (pixel_isr_n_inside n s Hwf ltac:(lia))
        as (s' & Hrun & Hwf' & _).
      exists s'. split; [by apply exec_Some with tt|].
      split; [apply (wf_cursor _ Hwf')|apply phase_cases, (wf_cursor _ Hwf')].
Qed.

Lemma cursor_cycle_of_30_witness :
  (exists s',
     exec (pixel_isr_n 30) boot_state = Some s' /\
     cursor s' = (0, 0) /\
     flag_reads (io s') = S (flag_reads (io boot_state))) /\
  (forall n, (0 < n < 30)%nat ->
     exists s', exec (pixel_isr_n n) boot_state = Some s' /\
                cursor s' <> (0, 0)) /\
  (forall n, (n <= 30)%nat ->
     exists s',
       exec (pixel_isr_n n) boot_state = Some s' /\
       currentPixelIndex s' < PIXEL_COUNT /\
       (phase s' = 0 \/ phase s' = 1 \/ phase s' = 2 \/
        phase s' = 3 \/ phase s' = 4)).
Proof.
  apply (cursor_cycle_of_30 boot_state).
  - split; [reflexivity|repeat constructor].
  - repeat split; simpl; lia.
  - reflexivity.
  - reflexivity.
Defined.

(** C7. A second [pixel_displayBufferedPixels], with no write to the
    buffered set since the first (timer overflows may have run in
    between), returns and leaves the displayed set as the first left
    it, in every slot and channel. *)
Theorem display_twice_same_displayed s fuel1 n fuel2 :
  wf s -> (30 <= fuel1)%nat -> (30 <= fuel2)%nat ->
  exists s1 s2 ps,
    exec (pixel_displayBufferedPixels fuel1) s = Some s1 /\
    exec (pixel_isr_n n;; pixel_displayBufferedPixels fuel2) s1 = Some s2 /\
    displayed_set s1 = Some ps /\
    displayed_set s2 = Some ps /\
    forall i, displayed_pixel s2 i = displayed_pixel s1 i.
Proof.
  intros Hwf Hf1 Hf2.
  destruct (pixel_displayBufferedPixels_spec fuel1 s Hwf Hf1)
    as (s1 & ps & Hrun1 & Hwf1 & _ & _ & _ & _ & Hds1 & Hbs1 & Hp1 & _).
  destruct (pixel_isr_n_idle n s1 Hwf1 Hp1)
    as (s1' & Hrunn & Hwf1' & Hst & Hd & Hb & _).
  destruct (pixel_displayBufferedPixels_spec fuel2 s1' Hwf1' Hf2)
    as (s2 & ps' & Hrun2 & _ & Hbs1' & _ & _ & _ & Hds2 & _).
  assert (ps' = ps) as ->.
  { unfold buffered_set in *. rewrite Hst, Hb in Hbs1'. congruence. }
  exists s1, s2, ps. split; [by apply exec_Some with tt|].
  split.
  { rewrite (exec_bind _ _ _ _ _ Hrunn). by apply exec_Some with tt. }
  split; [done|]. split; [done|].
  intros i. unfold displayed_pixel, displayed_set in *.
  by rewrite (pixel_at_lookup _ _ _ _ Hds1), (pixel_at_lookup _ _ _ _ Hds2).
Qed.

Lemma display_twice_same_displayed_witness :
  exists s1 s2 ps,
    exec (pixel_displayBufferedPixels 30) mid_scan_request = Some s1 /\
    exec (pixel_isr_n 0;; pixel_displayBufferedPixels 30) s1 = Some s2 /\
    displayed_set s1 = Some ps /\
    displayed_set s2 = Some ps /\
    forall i, displayed_pixel s2 i = displayed_pixel s1 i.
Proof.
  apply (display_twice_same_displayed mid_scan_request 30 0 30).
  - split; [split; [reflexivity|repeat constructor]
           |repeat split; simpl; lia
           |split; reflexivity].
  - lia.
  - lia.
Defined.

(** C3. On each channel the raw value that [pixel_bufferedSetPixel]
    takes from its gamma table does not increase when the brightness
    input, in 0..31, increases, and input 0 gives the off value 255. *)
Theorem gamma_nonincreasing_and_zero_off s pixel c1 c2 :
  store_ok (rawpixelsetbuffer s) -> (bufferedRawPixelSet s < 2)%nat ->
  pixel < PIXEL_COUNT -> color_ok c1 -> color_ok c2 ->
  exists s1 s2 p1 p2,
    exec (pixel_bufferedSetPixel pixel c1) s = Some s1 /\
    buffered_pixel s1 pixel = Some p1 /\
    exec (pixel_bufferedSetPixel pixel c2) s = Some s2 /\
    buffered_pixel s2 pixel = Some p2 /\
    (r c1 <= r c2 -> rawValueR p2 <= rawValueR p1) /\
    (g c1 <= g c2 -> rawValueG p2 <= rawValueG p1) /\
    (b c1 <= b c2 -> rawValueB p2 <= rawValueB p1) /\
    (r c1 = 0 -> rawValueR p1 = 255) /\
    (g c1 = 0 -> rawValueG p1 = 255) /\
    (b c1 = 0 -> rawValueB p1 = 255).
Proof.
  intros Hok Hb Hi Hc1 Hc2.
  destruct (pixel_bufferedSetPixel_result pixel c1 s Hok Hb Hi Hc1)
    as (s1 & r1 & g1 & b1 & Hr1 & Hg1 & Hb1 & Hrun1 & Hpx1).
  destruct (pixel_bufferedSetPixel_result pixel c2 s Hok Hb Hi Hc2)
    as (s2 & r2 & g2 & b2 & Hr2 & Hg2 & Hb2 & Hrun2 & Hpx2).
  exists s1, s2. eexists. eexists.
  split; [exact Hrun1|]. split; [exact Hpx1|].
  split; [exact Hrun2|]. split; [exact Hpx2|]. simpl.
  split; [|split; [|split; [|split; [|split]]]].
  - intros Hle. apply (StronglySorted_lookup_ge _ gamma8R_sorted
                         (N.to_nat (r c1)) (N.to_nat (r c2))); [lia|done|done].
  - intros Hle. apply (StronglySorted_lookup_ge _ gamma8G_sorted
                         (N.to_nat (g c1)) (N.to_nat (g c2))); [lia|done|done].
  - intros Hle. apply (StronglySorted_lookup_ge _ gamma8B_sorted
                         (N.to_nat (b c1)) (N.to_nat (b c2))); [lia|done|done].
  - intros Hz. rewrite Hz in Hr1. simpl in Hr1. congruence.
  - intros Hz. rewrite Hz in Hg1. simpl in Hg1. congruence.
  - intros Hz. rewrite Hz in Hb1. simpl in Hb1. congruence.
Qed.

Lemma gamma_nonincreasing_and_zero_off_witness :
  exists s1 s2 p1 p2,
    exec (pixel_bufferedSetPixel 2 {| r := 0; g := 0; b := 0 |})
      boot_state = Some s1 /\
    buffered_pixel s1 2 = Some p1 /\
    exec (pixel_bufferedSetPixel 2 {| r := 31; g := 8; b := 31 |})
      boot_state = Some s2 /\
    buffered_pixel s2 2 = Some p2 /\
    (0 <= 31 -> rawValueR p2 <= rawValueR p1) /\
    (0 <= 8 -> rawValueG p2 <= rawValueG p1) /\
    (0 <= 31 -> rawValueB p2 <= rawValueB p1) /\
    (0 = 0 -> rawValueR p1 = 255) /\
    (0 = 0 -> rawValueG p1 = 255) /\
    (0 = 0 -> rawValueB p1 = 255).
Proof.
  apply (gamma_nonincreasing_and_zero_off boot_state 2
           {| r := 0; g := 0; b := 0 |} {| r := 31; g := 8; b := 31 |}).
  - split; [reflexivity|repeat constructor].
  - simpl. lia.
  - reflexivity.
  - repeat split; simpl; lia.
  - repeat split; simpl; lia.
Defined.

(** C10. The red, green and blue gamma tables are the same list, so
    [pixel_bufferedSetPixel] gives two channels with equal inputs equal
    raw values; a colour with r = g = b yields a raw pixel with
    rawValueR = rawValueG = rawValueB. *)
Theorem gamma_tables_identical s pixel c :
  store_ok (rawpixelsetbuffer s) -> (bufferedRawPixelSet s < 2)%nat ->
  pixel < PIXEL_COUNT -> color_ok c ->
  gamma8R = gamma8G /\ gamma8G = gamma8B /\
  exists s' px,
    exec (pixel_bufferedSetPixel pixel c) s = Some s' /\
    buffered_pixel s' pixel = Some px /\
    (r c = g c -> rawValueR px = rawValueG px) /\
    (g c = b c -> rawValueG px = rawValueB px) /\
    (r c = b c -> rawValueR px = rawValueB px).
Proof.
  intros Hok Hb Hi Hc.
  split; [reflexivity|]. split; [reflexivity|].
  destruct (pixel_bufferedSetPixel_result pixel c s Hok Hb Hi Hc)
    as (s' & vr & vg & vb & Hr & Hg & Hbl & Hrun & Hpx).
  exists s'. eexists. split; [exact Hrun|]. split; [exact Hpx|]. simpl.
  change gamma8G with gamma8R in Hg. change gamma8B with gamma8R in Hbl.
  repeat split; intros Heq; congruence.
Qed.

Lemma gamma_tables_identical_witness :
  gamma8R = gamma8G /\ gamma8G = gamma8B /\
  exists s' px,
    exec (pixel_bufferedSetPixel 4 {| r := 17; g := 17; b := 17 |})
      boot_state = Some s' /\
    buffered_pixel s' 4 = Some px /\
    (17 = 17 -> rawValueR px = rawValueG px) /\
    (17 = 17 -> rawValueG px = rawValueB px) /\
    (17 = 17 -> rawValueR px = rawValueB px).
Proof.
  apply (gamma_tables_identical boot_state 4 {| r := 17; g := 17; b := 17 |}).
  - split; [reflexivity|repeat constructor].
  - simpl. lia.
  - reflexivity.
  - repeat split; simpl; lia.
Defined.

(** C9. [pixel_init] returns with every slot of both sets of the store
    holding the off value (255, 255, 255). *)
Theorem pixel_init_fills_both_sets_off s :
  store_ok (rawpixelsetbuffer s) ->
  exists s',
    exec pixel_init s = Some s' /\
    rawpixelsetbuffer s' =
      replicate 2 {| rawpixels := replicate 6 off_pixel |} /\
    all_off (rawpixelsetbuffer s').
Proof.
  intros Hok.
  destruct (pixel_init_spec s Hok) as (s' & Hrun & Hst & _).
  exists s'. split; [by apply exec_Some with tt|]. split; [done|].
  rewrite Hst. apply all_off_filled.
Qed.

Lemma pixel_init_fills_both_sets_off_witness :
  exists s',
    exec pixel_init boot_state = Some s' /\
    rawpixelsetbuffer s' =
      replicate 2 {| rawpixels := replicate 6 off_pixel |} /\
    all_off (rawpixelsetbuffer s').
Proof.
  apply (pixel_init_fills_both_sets_off boot_state).
  split; [reflexivity|repeat constructor].
Defined.

(** C6. From a store with every slot off, [pixel_bufferedSetPixel] of
    pixel 0 to (31, 0, 0) and then [pixel_displayBufferedPixels] leave
    displayed slot 0 at (1, 255, 255) and displayed slots 1 to 5 at
    (255, 255, 255). *)
Theorem max_red_on_pixel_0_scenario s fuel :
  wf s -> all_off (rawpixelsetbuffer s) -> (30 <= fuel)%nat ->
  exists s',
    exec (pixel_bufferedSetPixel 0 {| r := 31; g := 0; b := 0 |};;
          pixel_displayBufferedPixels fuel) s = Some s' /\
    displayed_pixel s' 0 =
      Some {| rawValueR := 1; rawValueG := 255; rawValueB := 255 |} /\
    forall i, 1 <= i -> i <= 5 -> displayed_pixel s' i = Some off_pixel.
Proof.
  intros Hwf Hoff Hfuel.
  destruct (wf_pointers s Hwf) as (_ & Hb & _).
  assert (Hi : 0 < PIXEL_COUNT) by reflexivity.
  assert (Hc : color_ok {| r := 31; g := 0; b := 0 |}).
  { repeat split; simpl; lia. }
  destruct (pixel_bufferedSetPixel_spec 0 _ s (wf_store s Hwf) Hb Hi Hc)
    as (s1 & vr & vg & vb & Hr & Hg & Hbl & Hrun1 & Hraw).
  simpl in Hr, Hg, Hbl.
  injection Hr as <-. injection Hg as <-. injection Hbl as <-.
  destruct (pixel_bufferedSetPixelRaw_spec 0 1 255 255 s (wf_store s Hwf) Hb Hi)
    as (s1' & Hraw' & Hpx & Hfr & Hok1 & Hd1 & Hb1 & Hi1 & Hp1 & _).
  assert (s1' = s1) as -> by congruence.
  assert (Hwf1 : wf s1) by by apply (wf_same_control s).
  destruct (pixel_displayBufferedPixels_spec fuel s1 Hwf1 Hfuel)
    as (s2 & ps & Hrun2 & _ & Hbs & _ & _ & _ & Hds & _).
  exists s2. split.
  { rewrite (exec_bind _ _ _ _ _ Hrun1). by apply exec_Some with tt. }
  unfold displayed_pixel, displayed_set, buffered_set in *.
  rewrite Hb1 in Hbs.
  split.
  - rewrite (pixel_at_lookup _ _ _ _ Hds), <- (pixel_at_lookup _ _ _ _ Hbs).
    exact Hpx.
  - intros i Hlo Hhi.
    rewrite (pixel_at_lookup _ _ _ _ Hds), <- (pixel_at_lookup _ _ _ _ Hbs).
    rewrite Hfr by (right; lia).
    apply Hoff; [done|]. unfold PIXEL_COUNT. lia.
Qed.

Lemma max_red_on_pixel_0_scenario_witness :
  exists s',
    exec (pixel_bufferedSetPixel 0 {| r := 31; g := 0; b := 0 |};;
          pixel_displayBufferedPixels 30) initialized_state = Some s' /\
    displayed_pixel s' 0 =
      Some {| rawValueR := 1; rawValueG := 255; rawValueB := 255 |} /\
    forall i, 1 <= i -> i <= 5 -> displayed_pixel s' i = Some off_pixel.
Proof.
  apply (max_red_on_pixel_0_scenario initialized_state 30).
  - split; [split; [reflexivity|repeat constructor]
           |repeat split; simpl; lia
           |split; reflexivity].
  - intros set i Hset Hi. unfold PIXEL_COUNT in Hi.
    assert (Hs : set = 0%nat \/ set = 1%nat) by lia.
    assert (Hc : i = 0 \/ i = 1 \/ i = 2 \/ i = 3 \/ i = 4 \/ i = 5) by lia.
    destruct Hs as [->| ->]; destruct Hc as [->|[->|[->|[->|[->| ->]]]]];
      reflexivity.
  - lia.
Defined.

(** C8. For an in-range pixel index, [pixel_bufferedSetPixelRaw] and
    [pixel_bufferedSetPixel] return having written only the addressed
    slot of the buffered set: every slot of the displayed set and every
    other slot of the buffered set keep their values (as do the two
    pointers, the cursor, the flag and the I/O trace). *)
Theorem writes_touch_only_addressed_buffered_slot s pixel vr vg vb c :
  wf s -> pixel < PIXEL_COUNT ->
  vr <= 255 -> vg <= 255 -> vb <= 255 -> color_ok c ->
  (exists s',
     exec (pixel_bufferedSetPixelRaw pixel vr vg vb) s = Some s' /\
     only_buffered_slot_written pixel s s') /\
  (exists s',
     exec (pixel_bufferedSetPixel pixel c) s = Some s' /\
     only_buffered_slot_written pixel s s').
Proof.
  intros Hwf Hi _ _ _ Hc.
  destruct (wf_pointers s Hwf) as (_ & Hb & Hne).
  assert (Hraw : forall xr xg xb s',
            pixel_bufferedSetPixelRaw pixel xr xg xb s = Some (tt, s') ->
            only_buffered_slot_written pixel s s').
  { intros xr xg xb s' Hrun.
    destruct (pixel_bufferedSetPixelRaw_spec pixel xr xg xb s
                (wf_store s Hwf) Hb Hi)
      as (s'' & Hrun' & _ & Hfr & _ & Hd & Hbf & Hix & Hph & Hpe & Hio).
    assert (s'' = s') as -> by congruence.
    unfold only_buffered_slot_written, displayed_pixel, buffered_pixel.
    rewrite Hd, Hbf.
    split; [done|]. split; [done|].
    split; [intros i; apply Hfr; by left|].
    split; [intros i Hni; apply Hfr; by right|].
    done. }
  split.
  - destruct (pixel_bufferedSetPixelRaw_spec pixel vr vg vb s
                (wf_store s Hwf) Hb Hi) as (s' & Hrun & _).
    exists s'. split; [by apply exec_Some with tt|]. by apply (Hraw vr vg vb).
  - destruct (pixel_bufferedSetPixel_spec pixel c s (wf_store s Hwf) Hb Hi Hc)
      as (s' & xr & xg & xb & _ & _ & _ & Hrun & Hrun').
    exists s'. split; [by apply exec_Some with tt|]. by apply (Hraw xr xg xb).
Qed.

Lemma writes_touch_only_addressed_buffered_slot_witness :
  (exists s',
     exec (pixel_bufferedSetPixelRaw 5 0 128 255) mid_scan_request = Some s' /\
     only_buffered_slot_written 5 mid_scan_request s') /\
  (exists s',
     exec (pixel_bufferedSetPixel 5 {| r := 31; g := 16; b := 0 |})
       mid_scan_request = Some s' /\
     only_buffered_slot_written 5 mid_scan_request s').
Proof.
  apply (writes_touch_only_addressed_buffered_slot mid_scan_request 5
           0 128 255 {| r := 31; g := 16; b := 0 |}).
  - split; [split; [reflexivity|repeat constructor]
           |repeat split; simpl; lia
           |split; reflexivity].
  - reflexivity.
  - lia.
  - lia.
  - lia.
  - repeat split; simpl; lia.
Defined.

(** * Further properties of the handler and the entry points *)

Lemma ticks_before_wrap_start s :
  cursor s = (0, 0) -> ticks_before_wrap s = 29%nat.
Proof.
  unfold cursor, ticks_before_wrap. intros H. injection H as -> ->. reflexivity.
Qed.

Lemma ticks_before_wrap_inj s s' :
  cursor_ok s -> cursor_ok s' ->
  ticks_before_wrap s' = ticks_before_wrap s -> cursor s' = cursor s.
Proof.
  unfold cursor_ok, ticks_before_wrap, cursor, PIXEL_COUNT.
  intros [Hi Hp] [Hi' Hp'] Ht.
  assert (currentPixelIndex s' = currentPixelIndex s) as -> by lia.
  assert (phase s' = phase s) as -> by lia.
  reflexivity.
Qed.

(** The overflow that wraps, after the overflows before it. *)
Lemma pixel_isr_n_to_wrap s :
  wf s ->
  exists s',
    pixel_isr_n (S (ticks_before_wrap s)) s = Some (tt, s') /\ wf s' /\
    rawpixelsetbuffer s' = rawpixelsetbuffer s /\
    cursor s' = (0, 0) /\
    flag_reads (io s') = S (flag_reads (io s)) /\
    (if decide (pendingRawPixelBufferSwap s = 0)
     then displayedRawPixelSet s' = displayedRawPixelSet s /\
          bufferedRawPixelSet s' = bufferedRawPixelSet s
     else displayedRawPixelSet s' = bufferedRawPixelSet s /\
          bufferedRawPixelSet s' = displayedRawPixelSet s) /\
    pendingRawPixelBufferSwap s' = 0.
Proof.
  intros Hwf.
  destruct (pixel_isr_n_inside (ticks_before_wrap s) s Hwf (le_n _))
    as (s1 & Hrun1 & Hwf1 & Hst1 & Hd1 & Hb1 & Hp1 & Hrd1 & Ht).
  assert (Hw : at_wrap s1).
  { apply (at_wrap_ticks s1 (wf_cursor _ Hwf1)). lia. }
  destruct (pixel_isr_wrap s1 Hw) as (s2 & Hrun2 & Hst2 & Hc2 & Hrd2 & Hsw & Hp2).
  destruct (pixel_isr_wf s1 Hwf1) as (s2' & Hrun2' & Hwf2).
  assert (s2' = s2) as -> by congruence.
  exists s2. split.
  { replace (S (ticks_before_wrap s)) with (ticks_before_wrap s + 1)%nat by lia.
    rewrite pixel_isr_n_add, Hrun1. simpl. unfold bind, ret. by rewrite Hrun2. }
  split; [done|]. split; [congruence|]. split; [done|]. split; [congruence|].
  split; [|done].
  rewrite Hp1 in Hsw. destruct (decide _); destruct Hsw; split; congruence.
Qed.

(** X1. A request is served exactly once: whatever the number of timer
    overflows, the handler leaves the contents of the store alone; with
    a request pending it exchanges the two pointers and clears the flag
    in the overflow that wraps the pixel index and never again; without
    one it never exchanges them and never raises the flag. *)
Theorem request_served_exactly_once s n :
  wf s ->
  exists s',
    exec (pixel_isr_n n) s = Some s' /\
    rawpixelsetbuffer s' = rawpixelsetbuffer s /\
    if decide (pendingRawPixelBufferSwap s <> 0 /\ (ticks_before_wrap s < n)%nat)
    then displayedRawPixelSet s' = bufferedRawPixelSet s /\
         bufferedRawPixelSet s' = displayedRawPixelSet s /\
         pendingRawPixelBufferSwap s' = 0
    else displayedRawPixelSet s' = displayedRawPixelSet s /\
         bufferedRawPixelSet s' = bufferedRawPixelSet s /\
         pendingRawPixelBufferSwap s' = pendingRawPixelBufferSwap s.
Proof.
  intros Hwf.
  destruct (decide _) as [[Hp Hn]|Hno].
  - destruct (pixel_isr_n_to_wrap s Hwf)
      as (s1 & Hrun1 & Hwf1 & Hst1 & _ & _ & Hsw & Hp1).
    destruct (decide _) as [|_]; [done|]. destruct Hsw as [Hd1 Hb1].
    destruct (pixel_isr_n_idle (n - S (ticks_before_wrap s)) s1 Hwf1 Hp1)
      as (s2 & Hrun2 & _ & Hst2 & Hd2 & Hb2 & Hp2).
    exists s2. split.
    { replace n with (S (ticks_before_wrap s) + (n - S (ticks_before_wrap s)))%nat
        at 1 by lia.
      unfold exec. by rewrite pixel_isr_n_add, Hrun1, Hrun2. }
    repeat split; congruence.
  - destruct (decide (pendingRawPixelBufferSwap s = 0)) as [Hz|Hnz].
    + destruct (pixel_isr_n_idle n s Hwf Hz)
        as (s1 & Hrun1 & _ & Hst1 & Hd1 & Hb1 & Hp1).
      exists s1. split; [by apply exec_Some with tt|]. repeat split; congruence.
    + destruct (pixel_isr_n_inside n s Hwf ltac:(lia))
        as (s1 & Hrun1 & _ & Hst1 & Hd1 & Hb1 & Hp1 & _).
      exists s1. split; [by apply exec_Some with tt|]. repeat split; congruence.
Qed.

Lemma request_served_exactly_once_witness :
  exists s',
    exec (pixel_isr_n 100) mid_scan_request = Some s' /\
    rawpixelsetbuffer s' = rawpixelsetbuffer mid_scan_request /\
    if decide (pendingRawPixelBufferSwap mid_scan_request <> 0 /\
               (ticks_before_wrap mid_scan_request < 100)%nat)
    then displayedRawPixelSet s' = bufferedRawPixelSet mid_scan_request /\
         bufferedRawPixelSet s' = displayedRawPixelSet mid_scan_request /\
         pendingRawPixelBufferSwap s' = 0
    else displayedRawPixelSet s' = displayedRawPixelSet mid_scan_request /\
         bufferedRawPixelSet s' = bufferedRawPixelSet mid_scan_request /\
         pendingRawPixelBufferSwap s' =
           pendingRawPixelBufferSwap mid_scan_request.
Proof.
  apply (request_served_exactly_once mid_scan_request 100).
  split; [split; [reflexivity|repeat constructor]
         |repeat split; simpl; lia
         |split; reflexivity].
Defined.

(** X2. The scan has period 30 from any point: 30 timer overflows bring
    the cursor back to the pixel and phase it started from, and the
    handler reads the pending-swap flag exactly once on the way. *)
Theorem cursor_period_from_any_point s :
  wf s ->
  exists s',
    exec (pixel_isr_n 30) s = Some s' /\
    cursor s' = cursor s /\
    flag_reads (io s') = S (flag_reads (io s)).
Proof.
  intros Hwf.
  pose proof (ticks_before_wrap_bound s) as Hbound.
  destruct (pixel_isr_n_to_wrap s Hwf)
    as (s1 & Hrun1 & Hwf1 & _ & Hc1 & Hrd1 & _).
  pose proof (ticks_before_wrap_start s1 Hc1) as Ht1.
  destruct (pixel_isr_n_inside (29 - ticks_before_wrap s) s1 Hwf1 ltac:(lia))
    as (s2 & Hrun2 & Hwf2 & _ & _ & _ & _ & Hrd2 & Ht2).
  exists s2. split.
  { replace 30%nat
      with (S (ticks_before_wrap s) + (29 - ticks_before_wrap s))%nat by lia.
    unfold exec. by rewrite pixel_isr_n_add, Hrun1, Hrun2. }
  split; [|congruence].
  apply ticks_before_wrap_inj; [apply Hwf|apply Hwf2|lia].
Qed.

Lemma cursor_period_from_any_point_witness :
  exists s',
    exec (pixel_isr_n 30) mid_scan_request = Some s' /\
    cursor s' = cursor mid_scan_request /\
    flag_reads (io s') = S (flag_reads (io mid_scan_request)).
Proof.
  apply (cursor_period_from_any_point mid_scan_request).
  split; [split; [reflexivity|repeat constructor]
         |repeat split; simpl; lia
         |split; reflexivity].
Defined.

(** Too little fuel: the wait is still spinning when the overflows run
    out. *)
Lemma wait_short fuel : forall s,
  wf s -> pendingRawPixelBufferSwap s <> 0 ->
  (fuel <= ticks_before_wrap s)%nat ->
  wait_pendingRawPixelBufferSwap fuel s = None.
Proof.
  induction fuel as [|fuel IH]; intros s Hwf Hpend Hfuel.
  - simpl. unfold_m. simpl.
    destruct (N.eqb_spec (pendingRawPixelBufferSwap s) 0); done.
  - rewrite wait_S. destruct (decide _) as [|_]; [done|].
    set (s0 := emit _ s).
    assert (Hwf0 : wf s0) by by apply wf_emit.
    assert (Hw : ~ at_wrap s0).
    { rewrite (at_wrap_ticks s0 (wf_cursor _ Hwf0)).
      change (ticks_before_wrap s0) with (ticks_before_wrap s). lia. }
    destruct (pixel_isr_inside s0 (wf_store _ Hwf0)
                (proj1 (wf_pointers _ Hwf0)) (wf_cursor _ Hwf0) Hw)
      as (s1 & Hrun & _ & _ & _ & Hpend1 & Hcur & _).
    destruct (pixel_isr_wf s0 Hwf0) as (s1' & Hrun' & Hwf1).
    assert (s1' = s1) as -> by congruence.
    destruct (next_cursor_ok s0 s1 (wf_cursor _ Hwf0) Hw Hcur) as [_ Ht].
    rewrite Hrun.
    change (ticks_before_wrap s0) with (ticks_before_wrap s) in Ht.
    apply IH; [done| |lia].
    rewrite Hpend1. exact Hpend.
Qed.

(** X3. [pixel_displayBufferedPixels] blocks until the next frame
    starts: it returns in the timer overflow that wraps the pixel index
    and in no earlier one, and on return the cursor is at pixel 0,
    phase 0 with the flag clear. *)
Theorem display_returns_at_frame_start s fuel :
  wf s ->
  if decide (fuel <= ticks_before_wrap s)%nat
  then exec (pixel_displayBufferedPixels fuel) s = None
  else exists s',
         exec (pixel_displayBufferedPixels fuel) s = Some s' /\
         cursor s' = (0, 0) /\
         pendingRawPixelBufferSwap s' = 0.
Proof.
  intros Hwf.
  set (s0 := emit (ST_pendingRawPixelBufferSwap 1)
               (set_pendingRawPixelBufferSwap 1 s)).
  assert (Hwf0 : wf s0) by (destruct Hwf; split; assumption).
  assert (Hstart : forall k : unit -> M unit,
            exec (store_pendingRawPixelBufferSwap 1;;
                  wait_pendingRawPixelBufferSwap fuel;; k tt) s =
            match wait_pendingRawPixelBufferSwap fuel s0 with
            | Some (_, s1) => exec (k tt) s1
            | None => None
            end).
  { intros k. unfold exec, bind at 1.
    unfold store_pendingRawPixelBufferSwap, modify. fold s0.
    unfold bind at 1.
    by destruct (wait_pendingRawPixelBufferSwap fuel s0) as [[[] s1]|]. }
  unfold pixel_displayBufferedPixels.
  destruct (decide _) as [Hle|Hgt].
  - rewrite (Hstart (fun _ => _)).
    rewrite (wait_short fuel s0 Hwf0); [done|discriminate|].
    change (ticks_before_wrap s0) with (ticks_before_wrap s). exact Hle.
  - destruct (wait_spec fuel s0 Hwf0)
      as (s1 & Hrun & Hwf1 & Hst & Hd & Hb & Hp & Hc).
    { discriminate. }
    { change (ticks_before_wrap s0) with (ticks_before_wrap s). lia. }
    rewrite (Hstart (fun _ => _)), Hrun.
    destruct (wf_pointers s1 Hwf1) as (Hdlt & Hblt & _).
    destruct (store_lookup_Some _ _ (wf_store s1 Hwf1) Hdlt) as (ps & Hps & _).
    destruct (store_lookup_Some _ _ (wf_store s1 Hwf1) Hblt) as (ps' & Hps' & _).
    assert (Hlen : (bufferedRawPixelSet s1 < length (rawpixelsetbuffer s1))%nat).
    { apply lookup_lt_is_Some. eauto. }
    unfold_m. unfold memcpy_rawpixelset. rewrite Hps.
    destruct (decide _) as [_|]; [|done].
    eexists. split; [reflexivity|]. split; [exact Hc|exact Hp].
Qed.

Lemma display_returns_at_frame_start_witness :
  if decide (16 <= ticks_before_wrap mid_scan_request)%nat
  then exec (pixel_displayBufferedPixels 16) mid_scan_request = None
  else exists s',
         exec (pixel_displayBufferedPixels 16) mid_scan_request = Some s' /\
         cursor s' = (0, 0) /\
         pendingRawPixelBufferSwap s' = 0.
Proof.
  apply (display_returns_at_frame_start mid_scan_request 16).
  split; [split; [reflexivity|repeat constructor]
         |repeat split; simpl; lia
         |split; reflexivity].
Defined.

(** X4. A partial update keeps the untouched pixels: after one
    [pixel_displayBufferedPixels], a raw write to one pixel and a second
    [pixel_displayBufferedPixels], the written slot displays the new
    value and every other slot displays what it displayed after the
    first call. *)
Theorem partial_update_keeps_other_pixels s fuel1 fuel2 pixel vr vg vb :
  wf s -> (30 <= fuel1)%nat -> (30 <= fuel2)%nat -> pixel < PIXEL_COUNT ->
  exists s1 s3,
    exec (pixel_displayBufferedPixels fuel1) s = Some s1 /\
    exec (pixel_bufferedSetPixelRaw pixel vr vg vb;;
          pixel_displayBufferedPixels fuel2) s1 = Some s3 /\
    displayed_pixel s3 pixel =
      Some {| rawValueR := vr; rawValueG := vg; rawValueB := vb |} /\
    forall i, i <> pixel -> displayed_pixel s3 i = displayed_pixel s1 i.
Proof.
  intros Hwf Hf1 Hf2 Hi.
  destruct (pixel_displayBufferedPixels_spec fuel1 s Hwf Hf1)
    as (s1 & ps & Hrun1 & Hwf1 & _ & _ & _ & _ & Hds1 & Hbs1 & _).
  destruct (wf_pointers s1 Hwf1) as (_ & Hb1 & _).
  destruct (pixel_bufferedSetPixelRaw_spec pixel vr vg vb s1
              (wf_store s1 Hwf1) Hb1 Hi)
    as (s2 & Hrun2 & Hpx & Hfr & Hok2 & Hd2 & Hb2 & Hi2 & Hp2 & _).
  assert (Hwf2 : wf s2) by by apply (wf_same_control s1).
  destruct (pixel_displayBufferedPixels_spec fuel2 s2 Hwf2 Hf2)
    as (s3 & ps2 & Hrun3 & _ & Hbs2 & _ & _ & _ & Hds3 & _).
  exists s1, s3. split; [by apply exec_Some with tt|].
  split.
  { rewrite (exec_bind _ _ _ _ _ Hrun2). by apply exec_Some with tt. }
  unfold displayed_pixel, displayed_set, buffered_set in *.
  rewrite Hb2 in Hbs2.
  split.
  - rewrite (pixel_at_lookup _ _ _ _ Hds3), <- (pixel_at_lookup _ _ _ _ Hbs2).
    exact Hpx.
  - intros i Hne.
    rewrite (pixel_at_lookup _ _ _ _ Hds3), <- (pixel_at_lookup _ _ _ _ Hbs2).
    rewrite Hfr by (by right).
    by rewrite (pixel_at_lookup _ _ _ _ Hds1), (pixel_at_lookup _ _ _ _ Hbs1).
Qed.

Lemma partial_update_keeps_other_pixels_witness :
  exists s1 s3,
    exec (pixel_displayBufferedPixels 30) mid_scan_request = Some s1 /\
    exec (pixel_bufferedSetPixelRaw 4 9 8 7;;
          pixel_displayBufferedPixels 30) s1 = Some s3 /\
    displayed_pixel s3 4 =
      Some {| rawValueR := 9; rawValueG := 8; rawValueB := 7 |} /\
    forall i, i <> 4 -> displayed_pixel s3 i = displayed_pixel s1 i.
Proof.
  apply (partial_update_keeps_other_pixels mid_scan_request 30 30 4 9 8 7).
  - split; [split; [reflexivity|repeat constructor]
           |repeat split; simpl; lia
           |split; reflexivity].
  - lia.
  - lia.
  - reflexivity.
Defined.

(** * The hardware view *)

Lemma phase_next s s' :
  wf s -> pixel_isr s = Some (tt, s') ->
  phase s' = if phase s =? 4 then 0 else phase s + 1.
Proof.
  intros Hwf Hrun.
  destruct (decide (phase s = 4 /\ currentPixelIndex s = PIXEL_COUNT - 1))
    as [Hw|Hw].
  - destruct (pixel_isr_wrap s Hw) as (s1 & Hrun1 & _ & Hc & _).
    assert (s1 = s') as -> by congruence.
    unfold cursor in Hc. injection Hc as _ ->. destruct Hw as [-> _]. done.
  - destruct (pixel_isr_inside s (wf_store _ Hwf)
                (proj1 (wf_pointers _ Hwf)) (wf_cursor _ Hwf) Hw)
      as (s1 & Hrun1 & _ & _ & _ & _ & Hc & _).
    assert (s1 = s') as -> by congruence.
    unfold cursor, next_cursor in Hc.
    destruct (phase s =? 4); by injection Hc as _ ->.
Qed.

(** A property that every overflow preserves, and that the overflow
    running phase [e] establishes, holds from the start if it held
    there, and in any case after one pixel period of five overflows. *)
Lemma overflow_invariant (P : state -> Prop) (e : N) :
  e < 5 ->
  (forall s s', wf s -> wf s' -> pixel_isr s = Some (tt, s') ->
     P s \/ phase s = e -> P s') ->
  forall n s, wf s -> P s \/ (ticks_to_phase e s < n)%nat ->
    exists s', pixel_isr_n n s = Some (tt, s') /\ wf s' /\ P s'.
Proof.
  intros He Hstep. induction n as [|n IH]; intros s Hwf HP.
  - exists s. destruct HP as [HP|HP]; [done|lia].
  - destruct (pixel_isr_wf s Hwf) as (s1 & Hrun & Hwf1).
    rewrite pixel_isr_n_S, Hrun.
    apply (IH s1 Hwf1).
    destruct HP as [HP|Hn].
    { left. apply (Hstep s s1); auto. }
    destruct (decide (phase s = e)) as [Heq|Hne].
    { left. apply (Hstep s s1); auto. }
    right.
    pose proof (phase_next s s1 Hwf Hrun) as Hph.
    pose proof (proj2 (wf_cursor s Hwf)) as Hlt.
    unfold ticks_to_phase in *. rewrite Hph.
    destruct (N.eqb_spec (phase s) 4);
      destruct (N.leb_spec (phase s) e);
      destruct (N.leb_spec 0 e);
      destruct (N.leb_spec (phase s + 1) e); lia.
Qed.

Lemma ticks_to_phase_bound e s :
  e < 5 -> cursor_ok s -> (ticks_to_phase e s < 5)%nat.
Proof.
  intros He [_ Hp]. unfold ticks_to_phase.
  destruct (N.leb_spec (phase s) e); lia.
Qed.

Lemma displayed_pixel_Some s :
  wf s -> exists px, displayed_pixel s (currentPixelIndex s) = Some px.
Proof.
  intros Hwf.
  destruct (pixel_at_Some _ _ _ (wf_store s Hwf) (proj1 (wf_pointers s Hwf))
              (proj1 (wf_cursor s Hwf))) as (ps & px & Hps & Hpx & _).
  exists px. unfold displayed_pixel, pixel_at. by rewrite Hps.
Qed.

(** Runs one overflow on a well-formed state by cases on the phase and
    the pixel index, leaving the resulting state explicit. *)
Ltac isr_by_cases s s' Hwf Hwf' Hrun :=
  let px := fresh "px" in
  let Hpa := fresh "Hpa" in
  let px' := fresh "px'" in
  let Hpa' := fresh "Hpa'" in
  let Hph := fresh "Hph" in
  let Hix := fresh "Hix" in
  destruct (displayed_pixel_Some s Hwf) as (px & Hpa);
  destruct (displayed_pixel_Some s' Hwf') as (px' & Hpa');
  pose proof (phase_cases s (wf_cursor s Hwf)) as Hph;
  pose proof (index_cases s (wf_cursor s Hwf)) as Hix;
  clear Hwf Hwf';
  destruct s as [bufs d bf index ph pend tr];
  unfold displayed_pixel in *;
  cbn [rawpixelsetbuffer displayedRawPixelSet bufferedRawPixelSet
       currentPixelIndex phase pendingRawPixelBufferSwap io] in *;
  destruct Hph as [->|[->|[->|[->| ->]]]];
  destruct Hix as [->|[->|[->|[->|[->| ->]]]]];
  unfold pixel_isr, deactivateAnodes in Hrun; unfold_m; simpl in Hrun;
  try rewrite Hpa in Hrun; simpl in Hrun;
  repeat match type of Hrun with
         | context [if ?c then _ else _] => destruct c eqn:?; simpl in Hrun
         end;
  injection Hrun as <-;
  cbn [set_phase set_currentPixelIndex set_displayedRawPixelSet
       set_bufferedRawPixelSet set_pendingRawPixelBufferSwap emit
       rawpixelsetbuffer displayedRawPixelSet bufferedRawPixelSet
       currentPixelIndex phase pendingRawPixelBufferSwap io] in *;
  change (uint8 (0 + 1)) with 1 in *;
  change (uint8 (1 + 1)) with 2 in *;
  change (uint8 (2 + 1)) with 3 in *;
  change (uint8 (3 + 1)) with 4 in *.

Lemma anodes_ok_step s s' :
  wf s -> wf s' -> pixel_isr s = Some (tt, s') ->
  anodes_ok s \/ phase s = 0 -> anodes_ok s'.
Proof.
  intros Hwf Hwf' Hrun Hinv.
  isr_by_cases s s' Hwf Hwf' Hrun.
  all: destruct Hinv as [Hinv|Hinv]; [|try discriminate Hinv].
  all: intros l Ha Hb; destruct l; try discriminate Ha; simpl in Hb;
       try discriminate Hb.
  all: try (eexists; split; reflexivity).
  all: destruct (Hinv _ Ha Hb) as (i & Hlit & Han); cbv in Hlit;
       first [discriminate Hlit
             |injection Hlit as <-; eexists; split; [reflexivity|exact Han]].
Qed.

Lemma blue_sink_ok_step s s' :
  wf s -> wf s' -> pixel_isr s = Some (tt, s') ->
  blue_sink_ok s \/ phase s = 1 -> blue_sink_ok s'.
Proof.
  intros Hwf Hwf' Hrun Hinv.
  isr_by_cases s s' Hwf Hwf' Hrun.
  all: destruct Hinv as [Hinv|Hinv]; [|try discriminate Hinv].
  all: intros Hb; simpl in Hb; try discriminate Hb; try reflexivity.
  all: discriminate (Hinv Hb).
Qed.

Lemma blue_pin_ok_step s s' :
  wf s -> wf s' -> pixel_isr s = Some (tt, s') ->
  blue_pin_ok s \/ phase s = 3 -> blue_pin_ok s'.
Proof.
  intros Hwf Hwf' Hrun Hinv.
  isr_by_cases s s' Hwf Hwf' Hrun.
  all: destruct Hinv as [Hinv|Hinv]; [|try discriminate Hinv].
  all: intros Hb; simpl in Hb; try discriminate Hb.
  all: try (destruct (Hinv Hb) as ([Hp|[Hp|Hp]] & px0 & Hpa0 & Hne);
            cbn [phase currentPixelIndex rawpixelsetbuffer
                 displayedRawPixelSet] in *;
            try discriminate Hp;
            (split; [auto|exists px0; split; assumption])).
  all: split; [auto|]; exists px; split; [exact Hpa|];
       intros Hoff; rewrite Hoff in *; discriminate.
Qed.

Ltac compare_ok_step_tac s s' :=
  let Hwf := fresh "Hwf" in
  let Hwf' := fresh "Hwf'" in
  let Hrun := fresh "Hrun" in
  let Hinv := fresh "Hinv" in
  intros Hwf Hwf' Hrun Hinv;
  isr_by_cases s s' Hwf Hwf' Hrun;
  (destruct Hinv as [Hinv|Hinv]; [|try discriminate Hinv]);
  (match goal with
   | Hp : pixel_at _ _ _ = Some ?p' |- compare_ok _ _ _ _ =>
       exists p'; split; [exact Hp|]
   end);
  cbn [phase io last_out ioreg_id N.eqb Pos.eqb];
  try (match goal with
       | H1 : pixel_at ?b ?d ?i = Some ?p, H2 : pixel_at ?b ?d ?i = Some ?q
         |- _ => assert (q = p) as -> by congruence
       end);
  first
    [ reflexivity
    | destruct Hinv as (?px0 & ?Hpa0 & ?Hout);
      cbn [phase io currentPixelIndex rawpixelsetbuffer displayedRawPixelSet
           N.eqb Pos.eqb] in *;
      first [ exact Hout | congruence ] ].

Lemma compare_ok_OCR2B_step s s' :
  wf s -> wf s' -> pixel_isr s = Some (tt, s') ->
  compare_ok OCR2B 2 rawValueB s \/ phase s = 2 ->
  compare_ok OCR2B 2 rawValueB s'.
Proof. compare_ok_step_tac s s'. Qed.

Lemma compare_ok_OCR0A_step s s' :
  wf s -> wf s' -> pixel_isr s = Some (tt, s') ->
  compare_ok OCR0A 3 rawValueR s \/ phase s = 3 ->
  compare_ok OCR0A 3 rawValueR s'.
Proof. compare_ok_step_tac s s'. Qed.

Lemma compare_ok_OCR0B_step s s' :
  wf s -> wf s' -> pixel_isr s = Some (tt, s') ->
  compare_ok OCR0B 4 rawValueG s \/ phase s = 4 ->
  compare_ok OCR0B 4 rawValueG s'.
Proof. compare_ok_step_tac s s'. Qed.

Lemma anodes_low_ok s :
  (forall l, is_anode l = true -> pin_bit PORT l (io s) = false) -> anodes_ok s.
Proof. intros Hlow l Ha Hb. rewrite (Hlow l Ha) in Hb. discriminate. Qed.

(** X5. Only one pixel is lit at a time: started with no anode driven,
    or after five timer overflows from any state, at most one anode is
    driven after every overflow, and it is the anode of the pixel the
    scan is showing. *)
Theorem one_anode_at_a_time s n :
  wf s ->
  (forall l, is_anode l = true -> pin_bit PORT l (io s) = false) \/
    (5 <= n)%nat ->
  exists s',
    exec (pixel_isr_n n) s = Some s' /\
    (forall l, is_anode l = true -> pin_bit PORT l (io s') = true ->
       exists i, lit_pixel s' = Some i /\ anode i = Some l) /\
    (forall l1 l2, is_anode l1 = true -> is_anode l2 = true ->
       pin_bit PORT l1 (io s') = true -> pin_bit PORT l2 (io s') = true ->
       l1 = l2).
Proof.
  intros Hwf Hinit.
  destruct (overflow_invariant anodes_ok 0 ltac:(done) anodes_ok_step n s Hwf)
    as (s' & Hrun & _ & Hok).
  { destruct Hinit as [Hlow|Hn]; [left; by apply anodes_low_ok|right].
    pose proof (ticks_to_phase_bound 0 s ltac:(done) (wf_cursor s Hwf)). lia. }
  exists s'. split; [by apply exec_Some with tt|]. split; [exact Hok|].
  intros l1 l2 Ha1 Ha2 Hb1 Hb2.
  destruct (Hok l1 Ha1 Hb1) as (i1 & Hl1 & Han1).
  destruct (Hok l2 Ha2 Hb2) as (i2 & Hl2 & Han2).
  congruence.
Qed.

Lemma one_anode_at_a_time_witness :
  exists s',
    exec (pixel_isr_n 12) boot_state = Some s' /\
    (forall l, is_anode l = true -> pin_bit PORT l (io s') = true ->
       exists i, lit_pixel s' = Some i /\ anode i = Some l) /\
    (forall l1 l2, is_anode l1 = true -> is_anode l2 = true ->
       pin_bit PORT l1 (io s') = true -> pin_bit PORT l2 (io s') = true ->
       l1 = l2).
Proof.
  apply (one_anode_at_a_time boot_state 12).
  - split; [split; [reflexivity|repeat constructor]
           |repeat split; simpl; lia
           |split; reflexivity].
  - left. intros l _. reflexivity.
Defined.

(** X6. The pump sink is enabled only with every anode off: started
    with the sink disabled and no anode driven, or after five timer
    overflows from any state, whenever the sink is enabled after an
    overflow, the next overflow runs phase 1 and no anode is driven. *)
Theorem blue_sink_only_with_anodes_off s n :
  wf s ->
  ((forall l, is_anode l = true -> pin_bit PORT l (io s) = false) /\
   pin_bit DDR BLUE_SINK (io s) = false) \/ (5 <= n)%nat ->
  exists s',
    exec (pixel_isr_n n) s = Some s' /\
    (pin_bit DDR BLUE_SINK (io s') = true ->
     phase s' = 1 /\
     forall l, is_anode l = true -> pin_bit PORT l (io s') = false).
Proof.
  intros Hwf Hinit.
  pose proof (ticks_to_phase_bound 0 s ltac:(done) (wf_cursor s Hwf)).
  pose proof (ticks_to_phase_bound 1 s ltac:(done) (wf_cursor s Hwf)).
  destruct (overflow_invariant anodes_ok 0 ltac:(done) anodes_ok_step n s Hwf)
    as (s' & Hrun & _ & Hok).
  { destruct Hinit as [[Hlow _]|Hn]; [left; by apply anodes_low_ok|right; lia]. }
  destruct (overflow_invariant blue_sink_ok 1 ltac:(done) blue_sink_ok_step
              n s Hwf) as (s'' & Hrun' & _ & Hsink).
  { destruct Hinit as [[_ Hlow]|Hn]; [left|right; lia].
    intros Hb. rewrite Hlow in Hb. discriminate. }
  assert (s'' = s') as -> by congruence.
  exists s'. split; [by apply exec_Some with tt|].
  intros Hb. pose proof (Hsink Hb) as Hp. split; [exact Hp|].
  intros l Ha. destruct (pin_bit PORT l (io s')) eqn:Hl; [|done].
  destruct (Hok l Ha Hl) as (i & Hlit & _).
  unfold lit_pixel in Hlit. rewrite Hp in Hlit. discriminate.
Qed.

Lemma blue_sink_only_with_anodes_off_witness :
  exists s',
    exec (pixel_isr_n 6) mid_scan_request = Some s' /\
    (pin_bit DDR BLUE_SINK (io s') = true ->
     phase s' = 1 /\
     forall l, is_anode l = true -> pin_bit PORT l (io s') = false).
Proof.
  apply (blue_sink_only_with_anodes_off mid_scan_request 6).
  - split; [split; [reflexivity|repeat constructor]
           |repeat split; simpl; lia
           |split; reflexivity].
  - right. lia.
Defined.

(** X7. The blue drive pin floats unless blue is shown: started with
    the pin floating, or after five timer overflows from any state,
    whenever the pin is an output after an overflow, the next overflow
    runs phase 1, 2 or 3 of a displayed pixel whose blue value is not
    the off value 255. *)
Theorem blue_pin_driven_only_for_blue_pixels s n :
  wf s ->
  pin_bit DDR LED_B (io s) = false \/ (5 <= n)%nat ->
  exists s',
    exec (pixel_isr_n n) s = Some s' /\
    (pin_bit DDR LED_B (io s') = true ->
     (phase s' = 1 \/ phase s' = 2 \/ phase s' = 3) /\
     exists px, displayed_pixel s' (currentPixelIndex s') = Some px /\
                rawValueB px <> 255).
Proof.
  intros Hwf Hinit.
  pose proof (ticks_to_phase_bound 3 s ltac:(done) (wf_cursor s Hwf)).
  destruct (overflow_invariant blue_pin_ok 3 ltac:(done) blue_pin_ok_step
              n s Hwf) as (s' & Hrun & _ & Hpin).
  { destruct Hinit as [Hlow|Hn]; [left|right; lia].
    intros Hb. rewrite Hlow in Hb. discriminate. }
  exists s'. split; [by apply exec_Some with tt|]. exact Hpin.
Qed.

Lemma blue_pin_driven_only_for_blue_pixels_witness :
  exists s',
    exec (pixel_isr_n 19) mid_scan_request = Some s' /\
    (pin_bit DDR LED_B (io s') = true ->
     (phase s' = 1 \/ phase s' = 2 \/ phase s' = 3) /\
     exists px, displayed_pixel s' (currentPixelIndex s') = Some px /\
                rawValueB px <> 255).
Proof.
  apply (blue_pin_driven_only_for_blue_pixels mid_scan_request 19).
  - split; [split; [reflexivity|repeat constructor]
           |repeat split; simpl; lia
           |split; reflexivity].
  - left. reflexivity.
Defined.

(** X8. The compare registers follow the displayed set one channel at a
    time: after five or more timer overflows from any state and any
    register contents, the value last written to OCR2B is the blue
    value of the current displayed pixel when the next overflow runs
    phase 2 and 255 otherwise, likewise OCR0A with red and phase 3 and
    OCR0B with green and phase 4; so at most one of the three is not
    the off value. *)
Theorem compare_registers_follow_displayed_pixel s n :
  wf s -> (5 <= n)%nat ->
  exists s' px,
    exec (pixel_isr_n n) s = Some s' /\
    displayed_pixel s' (currentPixelIndex s') = Some px /\
    last_out OCR2B (io s') =
      Some (if phase s' =? 2 then rawValueB px else 255) /\
    last_out OCR0A (io s') =
      Some (if phase s' =? 3 then rawValueR px else 255) /\
    last_out OCR0B (io s') =
      Some (if phase s' =? 4 then rawValueG px else 255).
Proof.
  intros Hwf Hn.
  pose proof (ticks_to_phase_bound 2 s ltac:(done) (wf_cursor s Hwf)).
  pose proof (ticks_to_phase_bound 3 s ltac:(done) (wf_cursor s Hwf)).
  pose proof (ticks_to_phase_bound 4 s ltac:(done) (wf_cursor s Hwf)).
  destruct (overflow_invariant _ 2 ltac:(done) compare_ok_OCR2B_step n s Hwf
              ltac:(right; lia)) as (s' & Hrun & _ & pxb & Hpb & Hb).
  destruct (overflow_invariant _ 3 ltac:(done) compare_ok_OCR0A_step n s Hwf
              ltac:(right; lia)) as (s1 & Hrun1 & _ & pxr & Hpr & Hr).
  destruct (overflow_invariant _ 4 ltac:(done) compare_ok_OCR0B_step n s Hwf
              ltac:(right; lia)) as (s2 & Hrun2 & _ & pxg & Hpg & Hg).
  assert (s1 = s') as -> by congruence.
  assert (s2 = s') as -> by congruence.
  assert (pxr = pxb) as -> by congruence.
  assert (pxg = pxb) as -> by congruence.
  exists s', pxb. split; [by apply exec_Some with tt|]. done.
Qed.

Lemma compare_registers_follow_displayed_pixel_witness :
  exists s' px,
    exec (pixel_isr_n 8) mid_scan_request = Some s' /\
    displayed_pixel s' (currentPixelIndex s') = Some px /\
    last_out OCR2B (io s') =
      Some (if phase s' =? 2 then rawValueB px else 255) /\
    last_out OCR0A (io s') =
      Some (if phase s' =? 3 then rawValueR px else 255) /\
    last_out OCR0B (io s') =
      Some (if phase s' =? 4 then rawValueG px else 255).
Proof.
  apply (compare_registers_follow_displayed_pixel mid_scan_request 8).
  - split; [split; [reflexivity|repeat constructor]
           |repeat split; simpl; lia
           |split; reflexivity].
  - lia.
Defined.

Example blue_pin_driven_after_swap :
  (fun s => (cursor s, pin_bit DDR LED_B (io s))) <$>
    exec (pixel_isr_n 19) mid_scan_request = Some ((0, 2), true) /\
  (fun s => (cursor s, pin_bit DDR LED_B (io s))) <$>
    exec (pixel_isr_n 21) mid_scan_request = Some ((0, 4), false).
Proof. split; vm_compute; reflexivity. Qed.

(** * Writes to the buffered set and the handler *)

Lemma same_but_hidden_store_step s s1 s' :
  wf s -> wf s1 -> same_but_hidden_store s s1 ->
  ~ (at_wrap s /\ pendingRawPixelBufferSwap s <> 0) ->
  pixel_isr s = Some (tt, s') ->
  exists s1', pixel_isr s1 = Some (tt, s1') /\ same_but_hidden_store s' s1'.
Proof.
  intros Hwf Hwf1 HR Hno Hrun.
  destruct (pixel_isr_wf s1 Hwf1) as (s1' & Hrun1 & _).
  exists s1'. split; [exact Hrun1|].
  destruct (displayed_pixel_Some s Hwf) as (px & Hpa).
  pose proof (phase_cases s (wf_cursor s Hwf)) as Hph.
  pose proof (index_cases s (wf_cursor s Hwf)) as Hix.
  clear Hwf Hwf1. unfold at_wrap in Hno.
  destruct s as [bufs d bf index ph pend tr].
  destruct s1 as [bufs1 d1 bf1 index1 ph1 pend1 tr1].
  unfold same_but_hidden_store, displayed_pixel in *.
  cbn [rawpixelsetbuffer displayedRawPixelSet bufferedRawPixelSet
       currentPixelIndex phase pendingRawPixelBufferSwap io] in *.
  destruct HR as (-> & -> & -> & -> & -> & -> & Hsame).
  assert (Hpa1 : pixel_at bufs1 d index = Some px) by by rewrite Hsame.
  destruct Hph as [->|[->|[->|[->| ->]]]];
    destruct Hix as [->|[->|[->|[->|[->| ->]]]]];
    unfold pixel_isr, deactivateAnodes in Hrun, Hrun1; unfold_m;
    simpl in Hrun, Hrun1;
    try rewrite Hpa in Hrun; try rewrite Hpa1 in Hrun1;
    simpl in Hrun, Hrun1;
    revert Hrun Hrun1;
    repeat match goal with
           | |- context [if ?c then _ else _] => destruct c eqn:?; simpl
           end;
    intros Hrun Hrun1; injection Hrun as <-; injection Hrun1 as <-;
    cbn [set_phase set_currentPixelIndex set_displayedRawPixelSet
         set_bufferedRawPixelSet set_pendingRawPixelBufferSwap emit
         rawpixelsetbuffer displayedRawPixelSet bufferedRawPixelSet
         currentPixelIndex phase pendingRawPixelBufferSwap io].
  all: try (repeat split; first [reflexivity|exact Hsame]).
  all: exfalso; apply Hno; split; [split; reflexivity|].
  all: intros ->; discriminate.
Qed.

Lemma same_but_hidden_store_run n : forall s s1,
  wf s -> wf s1 -> same_but_hidden_store s s1 ->
  pendingRawPixelBufferSwap s = 0 \/ (n <= ticks_before_wrap s)%nat ->
  exists s' s1',
    pixel_isr_n n s = Some (tt, s') /\
    pixel_isr_n n s1 = Some (tt, s1') /\
    same_but_hidden_store s' s1'.
Proof.
  induction n as [|n IH]; intros s s1 Hwf Hwf1 HR Hcond.
  - exists s, s1. done.
  - destruct (pixel_isr_wf s Hwf) as (s' & Hrun & Hwf').
    assert (Hno : ~ (at_wrap s /\ pendingRawPixelBufferSwap s <> 0)).
    { intros [Hw Hp]. destruct Hcond as [Hz|Hn]; [done|].
      apply (at_wrap_ticks s (wf_cursor s Hwf)) in Hw. lia. }
    destruct (same_but_hidden_store_step s s1 s' Hwf Hwf1 HR Hno Hrun)
      as (s1' & Hrun1 & HR').
    destruct (pixel_isr_wf s1 Hwf1) as (s1'' & Hrun1' & Hwf1').
    assert (s1'' = s1') as -> by congruence.
    destruct (IH s' s1' Hwf' Hwf1' HR') as (s2 & s2' & Hrun2 & Hrun2' & HR2).
    { destruct Hcond as [Hz|Hn].
      - left. destruct (pixel_isr_n_idle 1 s Hwf Hz) as (t & Ht & _ & _ & _ & _ & Hp).
        simpl in Ht. unfold bind, ret in Ht. rewrite Hrun in Ht.
        by injection Ht as <-.
      - right.
        assert (Hw : ~ at_wrap s).
        { rewrite (at_wrap_ticks s (wf_cursor s Hwf)). lia. }
        destruct (pixel_isr_inside s (wf_store _ Hwf)
                    (proj1 (wf_pointers _ Hwf)) (wf_cursor _ Hwf) Hw)
          as (t & Ht & _ & _ & _ & _ & Hcur & _).
        assert (t = s') as -> by congruence.
        destruct (next_cursor_ok s s' (wf_cursor _ Hwf) Hw Hcur) as [_ Hticks].
        lia. }
    exists s2, s2'. rewrite !pixel_isr_n_S, Hrun, Hrun1. done.
Qed.

(** X9. What the foreground writes into the buffered set stays
    invisible to the handler until a swap: with no request pending, or
    within the overflows before the wrap, the handler running after a
    raw write performs exactly the register and pin accesses it would
    have performed without the write, and ends with the same cursor,
    pointers, flag and displayed pixels. *)
Theorem buffered_write_invisible_to_handler s pixel vr vg vb n :
  wf s -> pixel < PIXEL_COUNT ->
  pendingRawPixelBufferSwap s = 0 \/ (n <= ticks_before_wrap s)%nat ->
  exists s' s1',
    exec (pixel_isr_n n) s = Some s' /\
    exec (pixel_bufferedSetPixelRaw pixel vr vg vb;; pixel_isr_n n) s =
      Some s1' /\
    io s1' = io s' /\
    same_but_hidden_store s' s1'.
Proof.
  intros Hwf Hi Hcond.
  destruct (wf_pointers s Hwf) as (_ & Hb & Hne).
  destruct (pixel_bufferedSetPixelRaw_spec pixel vr vg vb s
              (wf_store s Hwf) Hb Hi)
    as (s1 & Hrun1 & _ & Hfr & Hok1 & Hd1 & Hb1 & Hi1 & Hp1 & Hpe1 & Hio1).
  assert (Hwf1 : wf s1) by by apply (wf_same_control s).
  assert (HR : same_but_hidden_store s s1).
  { unfold same_but_hidden_store, displayed_pixel.
    rewrite Hd1. repeat split; try done.
    intros i. apply Hfr. by left. }
  destruct (same_but_hidden_store_run n s s1 Hwf Hwf1 HR Hcond)
    as (s' & s1' & Hrun & Hrun' & HR').
  exists s', s1'. split; [by apply exec_Some with tt|].
  split.
  { rewrite (exec_bind _ _ _ _ _ Hrun1). by apply exec_Some with tt. }
  split; [apply HR'|exact HR'].
Qed.

Lemma buffered_write_invisible_to_handler_witness :
  exists s' s1',
    exec (pixel_isr_n 16) mid_scan_request = Some s' /\
    exec (pixel_bufferedSetPixelRaw 3 1 2 3;; pixel_isr_n 16)
      mid_scan_request = Some s1' /\
    io s1' = io s' /\
    same_but_hidden_store s' s1'.
Proof.
  apply (buffered_write_invisible_to_handler mid_scan_request 3 1 2 3 16).
  - split; [split; [reflexivity|repeat constructor]
           |repeat split; simpl; lia
           |split; reflexivity].
  - reflexivity.
  - right. vm_compute. lia.
Defined.

(** * More on the entry points *)

(** X10. Raw writes compose as assignments to an array: writes to two
    different pixels commute, and of two writes to the same pixel the
    later one wins. *)
Theorem raw_writes_commute_and_overwrite s i j pa pb :
  wf s -> i < PIXEL_COUNT -> j < PIXEL_COUNT ->
  (i <> j ->
   exec (pixel_bufferedSetPixelRaw i (rawValueR pa) (rawValueG pa) (rawValueB pa);;
         pixel_bufferedSetPixelRaw j (rawValueR pb) (rawValueG pb) (rawValueB pb)) s =
   exec (pixel_bufferedSetPixelRaw j (rawValueR pb) (rawValueG pb) (rawValueB pb);;
         pixel_bufferedSetPixelRaw i (rawValueR pa) (rawValueG pa) (rawValueB pa)) s) /\
  exec (pixel_bufferedSetPixelRaw i (rawValueR pa) (rawValueG pa) (rawValueB pa);;
        pixel_bufferedSetPixelRaw i (rawValueR pb) (rawValueG pb) (rawValueB pb)) s =
  exec (pixel_bufferedSetPixelRaw i (rawValueR pb) (rawValueG pb) (rawValueB pb)) s /\
  is_Some (exec (pixel_bufferedSetPixelRaw i (rawValueR pb) (rawValueG pb)
                   (rawValueB pb)) s).
Proof.
  intros [Hok (_ & Hb & _) _] Hi Hj.
  destruct (store_ok_shape _ Hok) as (l0 & l1 & Hbufs & Hl0 & Hl1).
  destruct (length6 l0 Hl0) as (a0 & a1 & a2 & a3 & a4 & a5 & ->).
  destruct (length6 l1 Hl1) as (b0 & b1 & b2 & b3 & b4 & b5 & ->).
  destruct s as [bufs d bf index ph pend tr]. simpl in Hbufs, Hb. subst bufs.
  unfold PIXEL_COUNT in *.
  assert (Hbf : bf = 0%nat \/ bf = 1%nat) by lia.
  assert (Hic : i = 0 \/ i = 1 \/ i = 2 \/ i = 3 \/ i = 4 \/ i = 5) by lia.
  assert (Hjc : j = 0 \/ j = 1 \/ j = 2 \/ j = 3 \/ j = 4 \/ j = 5) by lia.
  destruct pa as [ar ag ab], pb as [br bg bb].
  destruct Hbf as [->| ->];
    destruct Hic as [->|[->|[->|[->|[->| ->]]]]];
    destruct Hjc as [->|[->|[->|[->|[->| ->]]]]];
    (split; [intros Hne; first [done|reflexivity]
            |split; [reflexivity|eexists; reflexivity]]).
Qed.

Lemma raw_writes_commute_and_overwrite_witness :
  (1 <> 4 ->
   exec (pixel_bufferedSetPixelRaw 1 (rawValueR off_pixel)
           (rawValueG off_pixel) (rawValueB off_pixel);;
         pixel_bufferedSetPixelRaw 4 (rawValueR zero_pixel)
           (rawValueG zero_pixel) (rawValueB zero_pixel)) boot_state =
   exec (pixel_bufferedSetPixelRaw 4 (rawValueR zero_pixel)
           (rawValueG zero_pixel) (rawValueB zero_pixel);;
         pixel_bufferedSetPixelRaw 1 (rawValueR off_pixel)
           (rawValueG off_pixel) (rawValueB off_pixel)) boot_state) /\
  exec (pixel_bufferedSetPixelRaw 1 (rawValueR off_pixel)
          (rawValueG off_pixel) (rawValueB off_pixel);;
        pixel_bufferedSetPixelRaw 1 (rawValueR zero_pixel)
          (rawValueG zero_pixel) (rawValueB zero_pixel)) boot_state =
  exec (pixel_bufferedSetPixelRaw 1 (rawValueR zero_pixel)
          (rawValueG zero_pixel) (rawValueB zero_pixel)) boot_state /\
  is_Some (exec (pixel_bufferedSetPixelRaw 1 (rawValueR zero_pixel)
                   (rawValueG zero_pixel) (rawValueB zero_pixel)) boot_state).
Proof.
  apply (raw_writes_commute_and_overwrite boot_state 1 4 off_pixel zero_pixel).
  - split; [split; [reflexivity|repeat constructor]
           |repeat split; simpl; lia
           |split; reflexivity].
  - reflexivity.
  - reflexivity.
Defined.

Lemma StronglySorted_lookup_gt (l : list N) :
  StronglySorted (fun x y => y < x) l ->
  forall i j x y, (i < j)%nat -> l !! i = Some x -> l !! j = Some y -> y < x.
Proof.
  induction 1 as [|a l Hs IH Hall]; intros i j x y Hij Hi Hj; [done|].
  destruct i as [|i]; destruct j as [|j]; simpl in *; try lia.
  - injection Hi as <-. rewrite Forall_lookup in Hall. apply (Hall _ _ Hj).
  - apply (IH i j); [lia|done|done].
Qed.

Lemma gamma8R_strict : StronglySorted (fun x y => y < x) gamma8R.
Proof.
  unfold gamma8R. repeat (constructor; [|repeat constructor; lia]). constructor.
Qed.

(** A gamma table maps different levels to different values, level 0
    and no other to 255, and no level to 0. *)
Lemma gamma8R_levels i j x y :
  gamma8R !! i = Some x -> gamma8R !! j = Some y ->
  (x = y -> i = j) /\ (x = 255 <-> i = 0%nat) /\ 1 <= x.
Proof.
  intros Hi Hj.
  assert (Hinj : forall i j x y, gamma8R !! i = Some x ->
            gamma8R !! j = Some y -> x = y -> i = j).
  { clear. intros i j x y Hi Hj Hxy.
    destruct (Nat.lt_trichotomy i j) as [Hlt|[Heq|Hgt]]; [|done|].
    - pose proof (StronglySorted_lookup_gt _ gamma8R_strict i j x y Hlt Hi Hj). lia.
    - pose proof (StronglySorted_lookup_gt _ gamma8R_strict j i y x Hgt Hj Hi). lia. }
  split; [by apply (Hinj i j)|]. split.
  - split.
    + intros ->. apply (Hinj i 0%nat 255 255 Hi); reflexivity.
    + intros ->. simpl in Hi. congruence.
  - assert (Hlen : (i < 32)%nat).
    { apply lookup_lt_Some in Hi. exact Hi. }
    destruct (decide (i = 31%nat)) as [->|Hne].
    + simpl in Hi. injection Hi as <-. lia.
    + assert (H31 : gamma8R !! 31%nat = Some 1) by reflexivity.
      pose proof (StronglySorted_lookup_gt _ gamma8R_strict i 31 x 1
                    ltac:(lia) Hi H31). lia.
Qed.

(** X11. The gamma mapping loses no level: on each channel
    [pixel_bufferedSetPixel] writes different raw values for different
    inputs in 0..31, writes the off value 255 for input 0 and for no
    other, and never writes 0. *)
Theorem gamma_levels_distinct s pixel c1 c2 :
  store_ok (rawpixelsetbuffer s) -> (bufferedRawPixelSet s < 2)%nat ->
  pixel < PIXEL_COUNT -> color_ok c1 -> color_ok c2 ->
  exists s1 s2 p1 p2,
    exec (pixel_bufferedSetPixel pixel c1) s = Some s1 /\
    buffered_pixel s1 pixel = Some p1 /\
    exec (pixel_bufferedSetPixel pixel c2) s = Some s2 /\
    buffered_pixel s2 pixel = Some p2 /\
    (rawValueR p1 = rawValueR p2 -> r c1 = r c2) /\
    (rawValueG p1 = rawValueG p2 -> g c1 = g c2) /\
    (rawValueB p1 = rawValueB p2 -> b c1 = b c2) /\
    (rawValueR p1 = 255 <-> r c1 = 0) /\
    (rawValueG p1 = 255 <-> g c1 = 0) /\
    (rawValueB p1 = 255 <-> b c1 = 0) /\
    1 <= rawValueR p1 /\ 1 <= rawValueG p1 /\ 1 <= rawValueB p1.
Proof.
  intros Hok Hb Hi Hc1 Hc2.
  destruct (pixel_bufferedSetPixel_result pixel c1 s Hok Hb Hi Hc1)
    as (s1 & r1 & g1 & b1 & Hr1 & Hg1 & Hb1 & Hrun1 & Hpx1).
  destruct (pixel_bufferedSetPixel_result pixel c2 s Hok Hb Hi Hc2)
    as (s2 & r2 & g2 & b2 & Hr2 & Hg2 & Hb2 & Hrun2 & Hpx2).
  change gamma8G with gamma8R in Hg1, Hg2.
  change gamma8B with gamma8R in Hb1, Hb2.
  destruct (gamma8R_levels _ _ _ _ Hr1 Hr2) as (Hri & Hrz & Hrp).
  destruct (gamma8R_levels _ _ _ _ Hg1 Hg2) as (Hgi & Hgz & Hgp).
  destruct (gamma8R_levels _ _ _ _ Hb1 Hb2) as (Hbi & Hbz & Hbp).
  exists s1, s2. eexists. eexists.
  split; [exact Hrun1|]. split; [exact Hpx1|].
  split; [exact Hrun2|]. split; [exact Hpx2|]. simpl.
  repeat split; try done; intros; lia.
Qed.

Lemma gamma_levels_distinct_witness :
  exists s1 s2 p1 p2,
    exec (pixel_bufferedSetPixel 2 {| r := 0; g := 30; b := 31 |})
      boot_state = Some s1 /\
    buffered_pixel s1 2 = Some p1 /\
    exec (pixel_bufferedSetPixel 2 {| r := 1; g := 30; b := 0 |})
      boot_state = Some s2 /\
    buffered_pixel s2 2 = Some p2 /\
    (rawValueR p1 = rawValueR p2 -> 0 = 1) /\
    (rawValueG p1 = rawValueG p2 -> 30 = 30) /\
    (rawValueB p1 = rawValueB p2 -> 31 = 0) /\
    (rawValueR p1 = 255 <-> 0 = 0) /\
    (rawValueG p1 = 255 <-> 30 = 0) /\
    (rawValueB p1 = 255 <-> 31 = 0) /\
    1 <= rawValueR p1 /\ 1 <= rawValueG p1 /\ 1 <= rawValueB p1.
Proof.
  apply (gamma_levels_distinct boot_state 2
           {| r := 0; g := 30; b := 31 |} {| r := 1; g := 30; b := 0 |}).
  - split; [reflexivity|repeat constructor].
  - simpl. lia.
  - reflexivity.
  - repeat split; simpl; lia.
  - repeat split; simpl; lia.
Defined.

(** * A phase out of range *)

Lemma pixel_isr_phase_out_of_range s :
  5 <= phase s -> pixel_isr s = Some (tt, s).
Proof.
  intros Hp. unfold pixel_isr. unfold_m.
  destruct (phase s) as [|[[[]|[]|]|[[]|[]|]|]] eqn:Hph; try lia; reflexivity.
Qed.

Lemma wait_phase_out_of_range fuel : forall s,
  5 <= phase s -> pendingRawPixelBufferSwap s <> 0 ->
  wait_pendingRawPixelBufferSwap fuel s = None.
Proof.
  induction fuel as [|fuel IH]; intros s Hp Hpend.
  - simpl. unfold_m. simpl.
    destruct (N.eqb_spec (pendingRawPixelBufferSwap s) 0); done.
  - rewrite wait_S. destruct (decide _) as [|_]; [done|].
    rewrite pixel_isr_phase_out_of_range by exact Hp.
    apply IH; assumption.
Qed.

(** X12. The handler has no case for a phase outside 0..4: with such a
    phase every timer overflow leaves the whole state as it is, with no
    register or pin access at all, and [pixel_displayBufferedPixels]
    does not return for any number of overflows. *)
Theorem phase_out_of_range_stalls s n fuel :
  5 <= phase s ->
  exec (pixel_isr_n n) s = Some s /\
  exec (pixel_displayBufferedPixels fuel) s = None.
Proof.
  intros Hp. split.
  - induction n as [|n IH]; [reflexivity|].
    unfold exec in *. rewrite pixel_isr_n_S, pixel_isr_phase_out_of_range by done.
    exact IH.
  - unfold pixel_displayBufferedPixels, exec, bind at 1.
    unfold store_pendingRawPixelBufferSwap, modify. unfold bind at 1.
    rewrite wait_phase_out_of_range; [done|exact Hp|discriminate].
Qed.

Lemma phase_out_of_range_stalls_witness :
  exec (pixel_isr_n 40) (set_phase 5 boot_state) = Some (set_phase 5 boot_state) /\
  exec (pixel_displayBufferedPixels 1000) (set_phase 5 boot_state) = None.
Proof.
  apply (phase_out_of_range_stalls (set_phase 5 boot_state) 40 1000).
  simpl. lia.
Defined.

(** * From the entry points to the hardware *)

Lemma compare_ok_OCR2B_from_phase_1 s s' :
  wf s -> wf s' -> pixel_isr s = Some (tt, s') ->
  compare_ok OCR2B 2 rawValueB s \/ phase s = 1 ->
  compare_ok OCR2B 2 rawValueB s'.
Proof. compare_ok_step_tac s s'. Qed.

Lemma compare_ok_OCR0A_from_phase_2 s s' :
  wf s -> wf s' -> pixel_isr s = Some (tt, s') ->
  compare_ok OCR0A 3 rawValueR s \/ phase s = 2 ->
  compare_ok OCR0A 3 rawValueR s'.
Proof. compare_ok_step_tac s s'. Qed.

Lemma compare_ok_OCR0B_from_phase_3 s s' :
  wf s -> wf s' -> pixel_isr s = Some (tt, s') ->
  compare_ok OCR0B 4 rawValueG s \/ phase s = 3 ->
  compare_ok OCR0B 4 rawValueG s'.
Proof. compare_ok_step_tac s s'. Qed.

(** From the start of a frame, [5 * i + ph] overflows reach phase [ph]
    of pixel [i], with the store and the pointers untouched. *)
Lemma pixel_isr_n_reach s i ph :
  wf s -> cursor s = (0, 0) -> i < PIXEL_COUNT -> ph < 5 ->
  exists s',
    pixel_isr_n (N.to_nat (5 * i + ph)) s = Some (tt, s') /\
    cursor s' = (i, ph) /\
    rawpixelsetbuffer s' = rawpixelsetbuffer s /\
    displayedRawPixelSet s' = displayedRawPixelSet s.
Proof.
  intros Hwf Hc Hi Hp.
  pose proof (ticks_before_wrap_start s Hc) as Ht.
  unfold PIXEL_COUNT in Hi.
  destruct (pixel_isr_n_inside (N.to_nat (5 * i + ph)) s Hwf ltac:(lia))
    as (s' & Hrun & Hwf' & Hst & Hd & _ & _ & _ & Ht').
  exists s'. split; [done|]. split; [|done].
  destruct (wf_cursor s' Hwf') as [Hi' Hp'].
  unfold ticks_before_wrap, cursor, PIXEL_COUNT in *.
  assert (currentPixelIndex s' = i) as -> by lia.
  assert (phase s' = ph) as -> by lia.
  reflexivity.
Qed.

(** X14. What is written reaches the compare registers: after a raw
    write of (r, g, b) to pixel [i] and [pixel_displayBufferedPixels],
    the handler, in the frame that follows, has loaded OCR2B with b
    when it is about to run phase 2 of pixel [i], OCR0A with r when
    about to run phase 3, and OCR0B with g when about to run phase
    4. *)
Theorem written_values_reach_compare_registers s fuel i vr vg vb :
  wf s -> (30 <= fuel)%nat -> i < PIXEL_COUNT ->
  exists s1 t2 t3 t4,
    exec (pixel_bufferedSetPixelRaw i vr vg vb;;
          pixel_displayBufferedPixels fuel) s = Some s1 /\
    exec (pixel_isr_n (N.to_nat (5 * i + 2))) s1 = Some t2 /\
    cursor t2 = (i, 2) /\ last_out OCR2B (io t2) = Some vb /\
    exec (pixel_isr_n (N.to_nat (5 * i + 3))) s1 = Some t3 /\
    cursor t3 = (i, 3) /\ last_out OCR0A (io t3) = Some vr /\
    exec (pixel_isr_n (N.to_nat (5 * i + 4))) s1 = Some t4 /\
    cursor t4 = (i, 4) /\ last_out OCR0B (io t4) = Some vg.
Proof.
  intros Hwf Hfuel Hi.
  destruct (wf_pointers s Hwf) as (_ & Hb & _).
  destruct (pixel_bufferedSetPixelRaw_spec i vr vg vb s (wf_store s Hwf) Hb Hi)
    as (s0 & Hrun0 & Hpx & _ & Hok0 & Hd0 & Hb0 & Hi0 & Hp0 & _).
  assert (Hwf0 : wf s0) by by apply (wf_same_control s).
  destruct (pixel_displayBufferedPixels_spec fuel s0 Hwf0 Hfuel)
    as (s1 & ps & Hrun1 & Hwf1 & Hbs & _ & _ & _ & Hds & _ & _ & Hc1).
  assert (Hshown : displayed_pixel s1 i =
            Some {| rawValueR := vr; rawValueG := vg; rawValueB := vb |}).
  { unfold displayed_pixel, displayed_set, buffered_set in *.
    rewrite (pixel_at_lookup _ _ _ _ Hds).
    rewrite <- Hb0 in Hpx. by rewrite (pixel_at_lookup _ _ _ _ Hbs) in Hpx. }
  assert (Hph : phase s1 = 0) by (unfold cursor in Hc1; congruence).
  assert (Hreg : forall reg shown chan e ph,
            e < 5 -> ph < 5 -> e + 1 <= ph -> ph = shown ->
            (forall s s', wf s -> wf s' -> pixel_isr s = Some (tt, s') ->
               compare_ok reg shown chan s \/ phase s = e ->
               compare_ok reg shown chan s') ->
            exists t,
              exec (pixel_isr_n (N.to_nat (5 * i + ph))) s1 = Some t /\
              cursor t = (i, ph) /\
              last_out reg (io t) =
                Some (chan {| rawValueR := vr; rawValueG := vg;
                              rawValueB := vb |})).
  { intros reg shown chan e ph He Hp Hle Heq Hstep.
    destruct (pixel_isr_n_reach s1 i ph Hwf1 Hc1 Hi Hp)
      as (t & Hrun & Hc & Hst & Hd).
    destruct (overflow_invariant _ e He Hstep (N.to_nat (5 * i + ph)) s1 Hwf1)
      as (t' & Hrun' & _ & px & Hpx' & Hout).
    { right. unfold ticks_to_phase. rewrite Hph.
      destruct (N.leb_spec 0 e); lia. }
    assert (t' = t) as -> by congruence.
    exists t. split; [by apply exec_Some with tt|]. split; [done|].
    unfold cursor in Hc. injection Hc as Hci Hcp.
    unfold displayed_pixel in *. rewrite Hst, Hd, Hci, Hshown in Hpx'.
    injection Hpx' as <-.
    rewrite Hout, Hcp, Heq, N.eqb_refl. reflexivity. }
  destruct (Hreg OCR2B 2 rawValueB 1 2) as (t2 & Hr2 & Hc2 & Ho2);
    [done|done|done|done|apply compare_ok_OCR2B_from_phase_1|].
  destruct (Hreg OCR0A 3 rawValueR 2 3) as (t3 & Hr3 & Hc3 & Ho3);
    [done|done|done|done|apply compare_ok_OCR0A_from_phase_2|].
  destruct (Hreg OCR0B 4 rawValueG 3 4) as (t4 & Hr4 & Hc4 & Ho4);
    [done|done|done|done|apply compare_ok_OCR0B_from_phase_3|].
  exists s1, t2, t3, t4. split.
  { rewrite (exec_bind _ _ _ _ _ Hrun0). by apply exec_Some with tt. }
  done.
Qed.

Lemma written_values_reach_compare_registers_witness :
  exists s1 t2 t3 t4,
    exec (pixel_bufferedSetPixelRaw 3 10 20 30;;
          pixel_displayBufferedPixels 30) boot_state = Some s1 /\
    exec (pixel_isr_n (N.to_nat (5 * 3 + 2))) s1 = Some t2 /\
    cursor t2 = (3, 2) /\ last_out OCR2B (io t2) = Some 30 /\
    exec (pixel_isr_n (N.to_nat (5 * 3 + 3))) s1 = Some t3 /\
    cursor t3 = (3, 3) /\ last_out OCR0A (io t3) = Some 10 /\
    exec (pixel_isr_n (N.to_nat (5 * 3 + 4))) s1 = Some t4 /\
    cursor t4 = (3, 4) /\ last_out OCR0B (io t4) = Some 20.
Proof.
  apply (written_values_reach_compare_registers boot_state 30 3 10 20 30).
  - split; [split; [reflexivity|repeat constructor]
           |repeat split; simpl; lia
           |split; reflexivity].
  - lia.
  - reflexivity.
Defined.

(** * Safety of the pins in every reachable state *)






